(** * OCR field extraction of the visitor-management client

    A shallow embedding of [client/src/lib/ocr.ts]: the ID-card and
    licence-plate text pipelines, their three scorers, and the slice of the
    JavaScript runtime they run on (UTF-16 strings, the regular expressions
    the file writes down, IEEE 754 binary64 numbers). *)

From Stdlib Require Import ZArith List Bool Lia String Ascii.
From Stdlib Require Import Floats.SpecFloat.
Import ListNotations.

Set Implicit Arguments.
Local Open Scope Z_scope.

(* ================================================================= *)
(** ** JavaScript numbers: IEEE 754 binary64 *)

Module JSNumber.

Definition prec : Z := 53.
Definition emax : Z := 1024.

Definition number := spec_float.

Definition zero : number := S754_zero false.

(** An integer as a number (string lengths, array lengths, literals). *)
Definition of_Z (z : Z) : number := binary_normalize prec emax z 0 false.
Definition of_nat (n : nat) : number := of_Z (Z.of_nat n).

Definition add : number -> number -> number := SFadd prec emax.
Definition mul : number -> number -> number := SFmul prec emax.
Definition div : number -> number -> number := SFdiv prec emax.

(** [a > b], [a >= b]: false as soon as one side is NaN. *)
Definition gt (a b : number) : bool := SFltb b a.
Definition le (a b : number) : bool := SFleb a b.

(** [Math.min(a, b)]: NaN if either is, else the smaller, -0 below +0. *)
Definition Math_min (a b : number) : number :=
  match SFcompare a b with
  | None => S754_nan
  | Some Lt => a
  | Some Gt => b
  | Some Eq => match a with S754_zero true => a | _ => b end
  end.

(** The decimal literal [n/d], correctly rounded to binary64. *)
Definition decimal (n d : Z) : number := div (of_Z n) (of_Z d).

Definition one   : number := Eval vm_compute in of_Z 1.
Definition n0_1  : number := Eval vm_compute in decimal 1 10.
Definition n0_15 : number := Eval vm_compute in decimal 15 100.
Definition n0_2  : number := Eval vm_compute in decimal 2 10.
Definition n0_3  : number := Eval vm_compute in decimal 3 10.
Definition n0_4  : number := Eval vm_compute in decimal 4 10.
Definition n0_5  : number := Eval vm_compute in decimal 5 10.
Definition n0_6  : number := Eval vm_compute in decimal 6 10.
Definition n0_7  : number := Eval vm_compute in decimal 7 10.

(** Sign bit clear and not NaN. *)
Definition nonneg (x : number) : bool :=
  match x with
  | S754_zero false | S754_infinity false | S754_finite false _ _ => true
  | _ => false
  end.

(** Membership of the closed interval [0,1], by the numbers' own order. *)
Definition in_unit (x : number) : bool := le zero x && le x one.

End JSNumber.

(* ================================================================= *)
(** ** JavaScript strings: sequences of UTF-16 code units *)

Module JSString.

Definition str := list Z.

Definition code (a : ascii) : Z := Z.of_nat (nat_of_ascii a).

(** A string literal of the source. *)
Definition js (s : string) : str := List.map code (list_ascii_of_string s).

Definition in_range (lo hi c : Z) : bool := (lo <=? c) && (c <=? hi).

Definition upper (c : Z) : bool := in_range 65 90 c.     (* A-Z *)
Definition lower (c : Z) : bool := in_range 97 122 c.    (* a-z *)
Definition digit (c : Z) : bool := in_range 48 57 c.     (* 0-9, \d *)
Definition letter (c : Z) : bool := upper c || lower c.  (* A-Za-z *)
Definition alnum (c : Z) : bool := letter c || digit c.  (* A-Za-z0-9 *)
Definition upper_alnum (c : Z) : bool := upper c || digit c.  (* A-Z0-9 *)
Definition only (k c : Z) : bool := c =? k.
Definition hyphen : Z := 45.
Definition period : Z := 46.
Definition slash : Z := 47.
Definition underscore : Z := 95.

(** [\w]: ASCII letters, digits and the underscore. *)
Definition word (c : Z) : bool := alnum c || only underscore c.

(** [\s], and what [trim] strips: WhiteSpace and LineTerminator. *)
Definition space (c : Z) : bool :=
  in_range 9 13 c || only 32 c || only 160 c || only 5760 c ||
  in_range 8192 8202 c || only 8232 c || only 8233 c || only 8239 c ||
  only 8287 c || only 12288 c || only 65279 c.

Definition length (s : str) : nat := List.length s.

Fixpoint dropWhile (p : Z -> bool) (s : str) : str :=
  match s with
  | c :: s' => if p c then dropWhile p s' else s
  | [] => []
  end.

Definition trim (s : str) : str :=
  rev (dropWhile space (rev (dropWhile space s))).

(** [s.toUpperCase()].  Every string the source upper-cases has already
    been stripped to word characters, white space, [.] and [-] (or to
    [A-Z0-9], [-] and white space); on those the Unicode upper-casing
    changes the letters a-z and nothing else. *)
Definition toUpperCase (s : str) : str :=
  List.map (fun c => if lower c then c - 32 else c) s.

Fixpoint str_eqb (a b : str) : bool :=
  match a, b with
  | [], [] => true
  | x :: a', y :: b' => (x =? y) && str_eqb a' b'
  | _, _ => false
  end.

Fixpoint starts_with (sub s : str) : bool :=
  match sub, s with
  | [], _ => true
  | x :: sub', y :: s' => (x =? y) && starts_with sub' s'
  | _ :: _, [] => false
  end.

(** [s.includes(sub)] *)
Fixpoint includes (s sub : str) : bool :=
  starts_with sub s ||
  match s with
  | _ :: s' => includes s' sub
  | [] => false
  end.

(** [s.split(sep)] for a one-character separator string. *)
Fixpoint split_on (sep : Z) (s : str) : list str :=
  match s with
  | [] => [[]]
  | c :: s' =>
      if c =? sep then [] :: split_on sep s'
      else match split_on sep s' with
           | piece :: pieces => (c :: piece) :: pieces
           | [] => [[c]]
           end
  end.

(** [pieces.join(sep)] *)
Fixpoint join (sep : str) (pieces : list str) : str :=
  match pieces with
  | [] => []
  | [p] => p
  | p :: rest => p ++ sep ++ join sep rest
  end.

(** A string in a boolean position: true unless empty. *)
Definition truthy (s : str) : bool :=
  match s with [] => false | _ :: _ => true end.

End JSString.

(* ================================================================= *)
(** ** The regular expressions of the source *)

Module RegExp.
Import JSString.

(** The fragment the file uses: one character of a class, a greedy
    quantifier on a class, an optional group, sequencing and the three
    assertions.  No flag but [g] occurs, so [^] and [$] are the ends of
    the input and classes are case sensitive. *)
Inductive regex : Type :=
| Cls (p : Z -> bool)
| Quant (p : Z -> bool) (lo : nat) (hi : option nat)
| Opt (r : regex)
| Seq (a b : regex)
| Bol
| Eol
| WordB.

Definition plus (p : Z -> bool) : regex := Quant p 1 None.
Definition star (p : Z -> bool) : regex := Quant p 0 None.
Definition maybe (p : Z -> bool) : regex := Quant p 0 (Some 1%nat).
Definition between (p : Z -> bool) (lo hi : nat) : regex := Quant p lo (Some hi).

Fixpoint seq (rs : list regex) : regex :=
  match rs with
  | [] => Quant (fun _ => false) 0 (Some 0%nat)
  | [r] => r
  | r :: rs' => Seq r (seq rs')
  end.

Definition neg (p : Z -> bool) (c : Z) : bool := negb (p c).
Definition either (p q : Z -> bool) (c : Z) : bool := p c || q c.

(** A position of the matcher: the character just before it (none at the
    start of the input) and the input still ahead. *)
Definition position : Type := option Z * str.

Definition is_word (o : option Z) : bool :=
  match o with Some c => word c | None => false end.

Definition room (hi : option nat) : bool :=
  match hi with Some O => false | _ => true end.

Definition less (hi : option nat) : option nat :=
  match hi with Some n => Some (Nat.pred n) | None => None end.

(** Greedy [p{lo,hi}]: take one more character first, stop second. *)
Fixpoint quant (p : Z -> bool) (lo : nat) (hi : option nat)
               (prev : option Z) (rest : str) : list position :=
  let stop := match lo with O => [(prev, rest)] | S _ => [] end in
  match rest with
  | c :: rest' =>
      if p c && room hi
      then quant p (Nat.pred lo) (less hi) (Some c) rest' ++ stop
      else stop
  | [] => stop
  end.

(** All the ways [r] matches from a position, in the backtracking order
    of the specification: the head is the match [exec] reports. *)
Fixpoint run (r : regex) (x : position) : list position :=
  match r with
  | Cls p =>
      match snd x with
      | c :: rest' => if p c then [(Some c, rest')] else []
      | [] => []
      end
  | Quant p lo hi => quant p lo hi (fst x) (snd x)
  | Opt a =>
      List.filter
        (fun y => negb (Nat.eqb (List.length (snd y)) (List.length (snd x))))
        (run a x) ++ [x]
  | Seq a b => flat_map (run b) (run a x)
  | Bol => match fst x with None => [x] | Some _ => [] end
  | Eol => match snd x with [] => [x] | _ :: _ => [] end
  | WordB =>
      if xorb (is_word (fst x)) (is_word (List.hd_error (snd x)))
      then [x] else []
  end.

(** The match starting exactly here, as the number of characters it
    takes. *)
Definition match_here (r : regex) (prev : option Z) (rest : str) : option nat :=
  match run r (prev, rest) with
  | y :: _ => Some (List.length rest - List.length (snd y))%nat
  | [] => None
  end.

(** [r.test(s)] (and a non-global [s.match(r)] read as a boolean). *)
Fixpoint test_from (r : regex) (prev : option Z) (rest : str) : bool :=
  match match_here r prev rest with
  | Some _ => true
  | None =>
      match rest with
      | c :: rest' => test_from r (Some c) rest'
      | [] => false
      end
  end.

Definition test (r : regex) (s : str) : bool := test_from r None s.

(** [s.match(r)] with the [g] flag: every match, left to right, without
    overlap; the empty list stands for [null].  [skip] counts the
    characters still inside the previous match. *)
Fixpoint match_from (r : regex) (prev : option Z) (rest : str) (skip : nat)
  : list str :=
  match skip with
  | S k =>
      match rest with
      | c :: rest' => match_from r (Some c) rest' k
      | [] => []
      end
  | O =>
      match match_here r prev rest with
      | Some n =>
          firstn n rest ::
          match rest with
          | c :: rest' => match_from r (Some c) rest' (Nat.pred n)
          | [] => []
          end
      | None =>
          match rest with
          | c :: rest' => match_from r (Some c) rest' 0
          | [] => []
          end
      end
  end.

Definition match_all (r : regex) (s : str) : list str := match_from r None s 0.

(** [s.replace(r, by_)] with the [g] flag; no replacement text of the
    source holds a [$]. *)
Fixpoint replace_from (r : regex) (by_ : str) (prev : option Z) (rest : str)
                      (skip : nat) : str :=
  match skip with
  | S k =>
      match rest with
      | c :: rest' => replace_from r by_ (Some c) rest' k
      | [] => []
      end
  | O =>
      match match_here r prev rest with
      | Some n =>
          by_ ++
          match rest with
          | c :: rest' =>
              (match n with O => [c] | S _ => [] end) ++
              replace_from r by_ (Some c) rest' (Nat.pred n)
          | [] => []
          end
      | None =>
          match rest with
          | c :: rest' => c :: replace_from r by_ (Some c) rest' 0
          | [] => []
          end
      end
  end.

Definition replace (r : regex) (by_ : str) (s : str) : str :=
  replace_from r by_ None s 0.

(** [s.split(r)]: [cur] is the piece being collected, reversed.  A match
    that ends where the piece began does not split. *)
Fixpoint split_from (r : regex) (prev : option Z) (rest : str)
                    (cur : str) (skip : nat) : list str :=
  match rest with
  | [] => [rev cur]
  | c :: rest' =>
      match skip with
      | S k => split_from r (Some c) rest' [] k
      | O =>
          match match_here r prev rest with
          | Some (S k) => rev cur :: split_from r (Some c) rest' [] k
          | Some O =>
              match cur with
              | [] => split_from r (Some c) rest' [c] 0
              | _ :: _ => rev cur :: split_from r (Some c) rest' [c] 0
              end
          | None => split_from r (Some c) rest' (c :: cur) 0
          end
      end
  end.

Definition split (r : regex) (s : str) : list str :=
  match s with
  | [] => match match_here r None [] with Some _ => [] | None => [[]] end
  | _ :: _ => split_from r None s [] 0
  end.

End RegExp.

(* ================================================================= *)
(** ** client/src/lib/ocr.ts *)

Module Ocr.
Import JSNumber JSString RegExp.

Record ExtractedIDData : Type := {
  name : option str;
  idNumber : option str;
  address : option str;
  city : option str
}.

Record ExtractedPlateData : Type := {
  plateNumber : option str
}.

(** The object literal [{}]. *)
Definition emptyIDData : ExtractedIDData :=
  {| name := None; idNumber := None; address := None; city := None |}.
Definition emptyPlateData : ExtractedPlateData := {| plateNumber := None |}.

(** A property read in a boolean position: [!data.field] holds for an
    absent field and for the empty string. *)
Definition present (field : option str) : bool :=
  match field with Some s => truthy s | None => false end.

(** *** The awaited OCR engine and the [try]/[catch] around it *)

Inductive outcome (A : Type) : Type :=
| Fulfilled (a : A)
| Threw.
Arguments Fulfilled {A} a.
Arguments Threw {A}.

Definition bind {A B : Type} (m : outcome A) (k : A -> outcome B) : outcome B :=
  match m with Fulfilled a => k a | Threw => Threw end.

Definition try_catch {A : Type} (body : outcome A) (handler : outcome A)
  : outcome A :=
  match body with Fulfilled a => Fulfilled a | Threw => handler end.

(** *** Regular-expression literals, in the order the file writes them *)

(* /[^\w\s.-]/g *)
Definition kept (c : Z) : bool :=
  word c || space c || only period c || only hyphen c.
Definition re_not_kept : regex := Cls (neg kept).
(* /^\d{1,2}\/\d{1,2}\/\d{4}$/ *)
Definition re_date : regex :=
  seq [Bol; between digit 1 2; Cls (only slash); between digit 1 2;
       Cls (only slash); between digit 4 4; Eol].
(* /^[^A-Za-z0-9]*$/ *)
Definition re_only_special : regex := seq [Bol; star (neg alnum); Eol].
(* /\s+/g *)
Definition re_spaces : regex := plus space.
(* /[^A-Z0-9]/g *)
Definition re_not_upper_alnum : regex := Cls (neg upper_alnum).
(* /\b[A-Z][a-z]+\s+[A-Z][a-z]+(?:\s+[A-Z][a-z]+)?\b/g *)
Definition re_name : regex :=
  seq [WordB; Cls upper; plus lower; plus space; Cls upper; plus lower;
       Opt (seq [plus space; Cls upper; plus lower]); WordB].
(* /\b[A-Z0-9]{8,15}\b/g *)
Definition re_id : regex := seq [WordB; between upper_alnum 8 15; WordB].
(* /[A-Za-z]/ *)
Definition re_letter : regex := Cls letter.
(* /[A-Za-z\s]/g *)
Definition re_letter_or_space : regex := Cls (either letter space).
(* /^[A-Z]/ *)
Definition re_capitalized : regex := seq [Bol; Cls upper].
(* /\d/ *)
Definition re_digit : regex := Cls digit.
(* /[^A-Za-z0-9]/g *)
Definition re_not_alnum : regex := Cls (neg alnum).
(* /[^A-Z0-9-\s]/g *)
Definition plate_kept (c : Z) : bool :=
  upper c || digit c || only hyphen c || space c.
Definition re_not_plate : regex := Cls (neg plate_kept).
(* /--+/g *)
Definition re_hyphens : regex := seq [Cls (only hyphen); plus (only hyphen)].
(* /[A-Z]/ *)
Definition re_upper : regex := Cls upper.
(* /^[A-Z]{2,3}[0-9]{2,4}$/ *)
Definition re_letters_digits : regex :=
  seq [Bol; between upper 2 3; between digit 2 4; Eol].
(* /^[0-9]{2,3}[A-Z]{2,3}$/ *)
Definition re_digits_letters : regex :=
  seq [Bol; between digit 2 3; between upper 2 3; Eol].
(* /^[A-Z][0-9]{3,4}$/ *)
Definition re_letter_digits : regex :=
  seq [Bol; Cls upper; between digit 3 4; Eol].

Definition hyphen_or_space (c : Z) : bool := only hyphen c || space c.

Definition platePatterns : list regex :=
  [ (* /\b[A-Z]{2,3}[-\s]?[0-9]{2,4}\b/g *)
    seq [WordB; between upper 2 3; maybe hyphen_or_space; between digit 2 4; WordB];
    (* /\b[0-9]{2,3}[-\s]?[A-Z]{2,3}\b/g *)
    seq [WordB; between digit 2 3; maybe hyphen_or_space; between upper 2 3; WordB];
    (* /\b[A-Z]{1,2}[0-9]{2,4}[A-Z]?\b/g *)
    seq [WordB; between upper 1 2; between digit 2 4; maybe upper; WordB];
    (* /\b[0-9]{1,3}[A-Z]{2,4}\b/g *)
    seq [WordB; between digit 1 3; between upper 2 4; WordB];
    (* /\b[A-Z0-9]{4,8}\b/g *)
    seq [WordB; between upper_alnum 4 8; WordB] ].

(** The quotient of two array or string lengths. *)
Definition ratio (a b : nat) : number := div (of_nat a) (of_nat b).

(** *** The scorers *)

Definition calculateNameScore (line : str) : number :=
  let score := zero in
  if negb (test re_letter line) then zero else
  let alphaSpaceRatio :=
    ratio (List.length (match_all re_letter_or_space line)) (length line) in
  let score := add score (mul alphaSpaceRatio n0_4) in
  let words := filter (fun w => (0 <? length w)%nat) (split re_spaces line) in
  let score :=
    if (2 <=? List.length words)%nat && (List.length words <=? 4)%nat
    then add score n0_3 else score in
  let capitalizedWords := filter (fun w => test re_capitalized w) words in
  let score :=
    add score (mul (ratio (List.length capitalizedWords) (List.length words)) n0_2) in
  let score :=
    if (5 <=? length line)%nat && (length line <=? 40)%nat
    then add score n0_1 else score in
  Math_min score one.

Definition calculateIdScore (line : str) : number :=
  let score := zero in
  let hasNumbers := test re_digit line in
  let hasLetters := test re_letter line in
  if negb hasNumbers && negb hasLetters then zero else
  let score := if hasNumbers then add score n0_4 else score in
  let score := if hasLetters && hasNumbers then add score n0_2 else score in
  let cleanLine := replace re_not_alnum [] line in
  let cleanRatio := ratio (length cleanLine) (length line) in
  let score := add score (mul cleanRatio n0_3) in
  let score :=
    if (6 <=? length cleanLine)%nat && (length cleanLine <=? 15)%nat
    then add score n0_1 else score in
  Math_min score one.

Definition calculatePlateScore (text : str) : number :=
  let score := zero in
  let cleanText := replace re_not_upper_alnum [] text in
  let hasNumbers := test re_digit cleanText in
  let hasLetters := test re_upper cleanText in
  if negb hasNumbers && negb hasLetters then zero else
  let score := if hasNumbers && hasLetters then add score n0_5 else score in
  let score :=
    if hasNumbers && negb hasLetters && (3 <=? length cleanText)%nat
    then add score n0_3 else score in
  let score :=
    if (4 <=? length cleanText)%nat && (length cleanText <=? 8)%nat
    then add score n0_3
    else if (3 <=? length cleanText)%nat && (length cleanText <=? 10)%nat
    then add score n0_1 else score in
  let score := if test re_letters_digits cleanText then add score n0_2 else score in
  let score := if test re_digits_letters cleanText then add score n0_2 else score in
  let score := if test re_letter_digits cleanText then add score n0_15 else score in
  Math_min score one.

(** *** extractIDCardText *)

(** [text.split('\n').map(line => line.trim()).filter(line => line.length > 0)] *)
Definition lines_of (text : str) : list str :=
  filter (fun line => (0 <? length line)%nat) (map trim (split_on 10 text)).

Definition headers : list str :=
  map js ["IDENTITY"; "CARD"; "GOVERNMENT"; "REPUBLIC"; "ISSUED"; "EXPIRES";
          "DOB"; "DATE"; "SEX"; "MALE"; "FEMALE"; "ADDRESS"; "SIGNATURE";
          "VALID"]%string.

Definition clean (line : str) : str := replace re_not_kept [] (trim line).

(** The condition of the [continue] in the filtering loop. *)
Definition skipped (cleanLine : str) : bool :=
  let upperLine := toUpperCase cleanLine in
  (length cleanLine <? 3)%nat ||
  (50 <? length cleanLine)%nat ||
  existsb (includes upperLine) headers ||
  test re_date upperLine ||
  test re_only_special cleanLine.

Definition meaningful_step (meaningfulLines : list str) (line : str) : list str :=
  let cleanLine := clean line in
  if skipped cleanLine then meaningfulLines else meaningfulLines ++ [cleanLine].

Definition meaningfulLines (lines : list str) : list str :=
  fold_left meaningful_step lines [].

(** One turn of a best-candidate loop: the pair is the candidate and its
    score so far. *)
Definition best_step (score : str -> number) (threshold : number)
                     (best : str * number) (line : str) : str * number :=
  let s := score line in
  if gt s (snd best) && gt s threshold then (line, s) else best.

Definition name_step : str * number -> str -> str * number :=
  best_step calculateNameScore n0_7.

Definition bestName (meaningful : list str) : str * number :=
  fold_left name_step meaningful ([], zero).

Definition id_step (bestNameCandidate : str) (best : str * number) (line : str)
  : str * number :=
  if str_eqb line bestNameCandidate then best
  else best_step calculateIdScore n0_6 best line.

Definition bestId (meaningful : list str) (bestNameCandidate : str)
  : str * number :=
  fold_left (id_step bestNameCandidate) meaningful ([], zero).

Definition set_name (v : str) (d : ExtractedIDData) : ExtractedIDData :=
  {| name := Some v; idNumber := idNumber d; address := address d; city := city d |}.
Definition set_idNumber (v : str) (d : ExtractedIDData) : ExtractedIDData :=
  {| name := name d; idNumber := Some v; address := address d; city := city d |}.

(** The record after the two scoring loops. *)
Definition scored (meaningful : list str) : ExtractedIDData :=
  let extractedData := emptyIDData in
  let bestNameCandidate := fst (bestName meaningful) in
  let extractedData :=
    if truthy bestNameCandidate
    then set_name (trim (replace re_spaces (js " ") bestNameCandidate)) extractedData
    else extractedData in
  let bestIdCandidate := fst (bestId meaningful bestNameCandidate) in
  if truthy bestIdCandidate
  then set_idNumber
         (replace re_not_upper_alnum [] (replace re_spaces [] bestIdCandidate))
         extractedData
  else extractedData.

(** The fallback pattern matching over the joined meaningful lines. *)
Definition fallback (meaningful : list str) (extractedData : ExtractedIDData)
  : ExtractedIDData :=
  if negb (present (name extractedData)) || negb (present (idNumber extractedData))
  then
    let allText := join (js " ") meaningful in
    let extractedData :=
      if negb (present (name extractedData)) then
        match match_all re_name allText with
        | first :: _ => set_name first extractedData
        | [] => extractedData
        end
      else extractedData in
    if negb (present (idNumber extractedData)) then
      match match_all re_id allText with
      | first :: _ => set_idNumber first extractedData
      | [] => extractedData
      end
    else extractedData
  else extractedData.

(** Everything between reading [result.data.text] and [return]. *)
Definition idDataOfText (text : str) : ExtractedIDData :=
  let meaningful := meaningfulLines (lines_of text) in
  fallback meaningful (scored meaningful).

Section Engine.
(** [Tesseract.recognize(imageData, 'eng', ...)] awaited, with
    [result.data.text] read off: the text, or a rejection. *)
Variable recognize : str -> outcome str.

Definition extractIDCardText (imageData : str) : outcome ExtractedIDData :=
  try_catch
    (bind (recognize imageData) (fun text => Fulfilled (idDataOfText text)))
    (Fulfilled emptyIDData).
End Engine.

(** *** extractLicensePlate *)

(** The innermost loop body: one match of one pattern. *)
Definition plate_step (best : str * number) (m : str) : str * number :=
  let score := calculatePlateScore m in
  if gt score (snd best) then (m, score) else best.

Definition pattern_step (cleanLine : str) (best : str * number) (pattern : regex)
  : str * number :=
  fold_left plate_step (match_all pattern cleanLine) best.

Definition cleanPlateLine (line : str) : str :=
  trim (toUpperCase (replace re_not_plate [] line)).

Definition line_step (best : str * number) (line : str) : str * number :=
  let cleanLine := cleanPlateLine line in
  if (length cleanLine <? 3)%nat then best
  else fold_left (pattern_step cleanLine) platePatterns best.

Definition bestPlate (lines : list str) : str * number :=
  fold_left line_step lines ([], zero).

(** The whole text tried as one plate when no line gave a candidate. *)
Definition wholeTextPlate (lines : list str) (bestPlateCandidate : str) : str :=
  if negb (truthy bestPlateCandidate) then
    let allText :=
      toUpperCase (replace re_not_upper_alnum [] (join (js " ") lines)) in
    if (4 <=? length allText)%nat && (length allText <=? 10)%nat then
      let score := calculatePlateScore allText in
      if gt score n0_5 then allText else bestPlateCandidate
    else bestPlateCandidate
  else bestPlateCandidate.

(** [bestPlateCandidate.replace(/\s+/g, '').replace(/--+/g, '-')] *)
Definition formatPlate (bestPlateCandidate : str) : str :=
  replace re_hyphens [hyphen] (replace re_spaces [] bestPlateCandidate).

(** The candidate the final [if] looks at. *)
Definition plateCandidate (text : str) : str :=
  let lines := lines_of text in
  wholeTextPlate lines (fst (bestPlate lines)).

Definition plateDataOfText (text : str) : ExtractedPlateData :=
  let bestPlateCandidate := plateCandidate text in
  if truthy bestPlateCandidate
  then {| plateNumber := Some (formatPlate bestPlateCandidate) |}
  else emptyPlateData.

Section PlateEngine.
Variable recognize : str -> outcome str.

Definition extractLicensePlate (imageData : str) : outcome ExtractedPlateData :=
  try_catch
    (bind (recognize imageData) (fun text => Fulfilled (plateDataOfText text)))
    (Fulfilled emptyPlateData).
End PlateEngine.

End Ocr.

(* ================================================================= *)
(** ** Vocabulary of the statements *)

Module Words.
Import JSString RegExp.

(** The words a regular expression can match, assertions read as the
    empty word (what they say about the context is left out). *)
Fixpoint den (r : regex) (w : str) : Prop :=
  match r with
  | Cls p => exists c, w = [c] /\ p c = true
  | Quant p lo hi =>
      Forall (fun c => p c = true) w /\ (lo <= List.length w)%nat /\
      match hi with Some h => (List.length w <= h)%nat | None => True end
  | Opt a => w = [] \/ den a w
  | Seq a b => exists u v, w = u ++ v /\ den a u /\ den b v
  | Bol | Eol | WordB => w = []
  end.

(** How many characters of a class a string holds. *)
Definition count (p : Z -> bool) (s : str) : nat := List.length (filter p s).

(** The length of the longest prefix inside a class. *)
Fixpoint run_length (p : Z -> bool) (s : str) : nat :=
  match s with
  | c :: s' => if p c then S (run_length p s') else O
  | [] => O
  end.

(** Runs of hyphens replaced by one hyphen each; [after] says that the
    previous character was a hyphen. *)
Fixpoint squeeze (after : bool) (s : str) : str :=
  match s with
  | c :: s' =>
      if only hyphen c
      then (if after then squeeze true s' else c :: squeeze true s')
      else c :: squeeze false s'
  | [] => []
  end.
End Words.

Module Order.
Import JSNumber.

(** Sign-free position of a number in the order of the non-negative
    numbers: zero, the finite ones by exponent then mantissa, infinity. *)
Definition key (x : number) : Z * (Z * Z) :=
  match x with
  | S754_zero _ => (0, (0, 0))
  | S754_finite _ m e => (1, (e, Z.pos m))
  | S754_infinity _ => (2, (0, 0))
  | S754_nan => (3, (0, 0))
  end.

(** A score as the scorers return it. *)
Definition bounded (x : number) : Prop :=
  nonneg x = true /\ in_unit x = true.

Definition below (a b : Z * (Z * Z)) : Prop :=
  fst a < fst b \/
  (fst a = fst b /\ (fst (snd a) < fst (snd b) \/
                     (fst (snd a) = fst (snd b) /\ snd (snd a) < snd (snd b)))).
End Order.

Module Selection.
Import JSNumber JSString Ocr.

(** A best-candidate loop that looks only at the eligible lines. *)
Definition sel_step (eligible : str -> bool) (score : str -> number)
                    (threshold : number) (best : str * number) (line : str)
  : str * number :=
  if eligible line then best_step score threshold best line else best.

(** The lines the ID loop does not skip. *)
Definition other_than (n : str) (line : str) : bool := negb (str_eqb line n).

(** What such a loop holds after the lines [ls]: nothing, no eligible
    line being above the threshold; or the first of the eligible lines of
    greatest score, that score being above the threshold. *)
Definition chosen (eligible : str -> bool) (score : str -> number)
                  (threshold : number) (ls : list str) (best : str * number)
  : Prop :=
  (best = ([], zero) /\
   forall x, In x ls -> eligible x = true -> gt (score x) threshold = false)
  \/
  (exists pre post,
      ls = pre ++ fst best :: post /\
      eligible (fst best) = true /\
      snd best = score (fst best) /\
      gt (score (fst best)) threshold = true /\
      (forall x, In x pre -> eligible x = true ->
                 gt (score (fst best)) (score x) = true) /\
      (forall x, In x post -> eligible x = true ->
                 gt (score x) (score (fst best)) = false)).

(** The first of the lines of greatest name score, that score being above
    0.7: every line before it scores strictly lower, no line after it
    scores higher. *)
Definition first_best_name (ml : list str) (a : str) : Prop :=
  exists pre post,
    ml = pre ++ a :: post /\
    gt (calculateNameScore a) n0_7 = true /\
    (forall x, In x pre ->
               gt (calculateNameScore a) (calculateNameScore x) = true) /\
    (forall x, In x post ->
               gt (calculateNameScore x) (calculateNameScore a) = false).

(** The same for the ID score and 0.6, among the lines other than the
    name candidate. *)
Definition first_best_id (bestNameCandidate : str) (ml : list str) (a : str)
  : Prop :=
  exists pre post,
    ml = pre ++ a :: post /\ a <> bestNameCandidate /\
    gt (calculateIdScore a) n0_6 = true /\
    (forall x, In x pre -> x <> bestNameCandidate ->
               gt (calculateIdScore a) (calculateIdScore x) = true) /\
    (forall x, In x post -> x <> bestNameCandidate ->
               gt (calculateIdScore x) (calculateIdScore a) = false).
End Selection.

Module Claims.
Import JSString RegExp Ocr Words.

(** ASCII letters, digits, spaces, hyphens and periods. *)
Definition ascii_content (c : Z) : bool :=
  letter c || digit c || only 32 c || only hyphen c || only period c.

(** Upper-case letters, digits and spaces. *)
Definition upper_digit_space (c : Z) : bool :=
  upper c || digit c || only 32 c.

(** Some [n] characters in a row are all in the class. *)
Fixpoint has_run (p : Z -> bool) (n : nat) (s : str) : bool :=
  (n <=? run_length p s)%nat ||
  match s with
  | _ :: s' => has_run p n s'
  | [] => false
  end.

(** White space removed, then every run of hyphens made one hyphen. *)
Definition normalizePlate (s : str) : str :=
  squeeze false (filter (neg space) s).
End Claims.

(* ================================================================= *)
(** ** The registration forms that call the extraction *)

Module Forms.
Import JSString Ocr.

(** A [toast({ title, description, variant })] call. *)
Record Toast : Type := {
  title : str;
  description : str;
  destructive : bool
}.

(** *** client/src/components/visitor-modal.tsx *)

(** The fields [useForm] registers, with their [defaultValues]. *)
Record VisitorForm : Type := {
  v_name : str;
  v_idNumber : str;
  v_city : str;
  v_address : str;
  v_company : str;
  v_phone : str;
  v_status : str
}.

Definition visitorDefaults : VisitorForm :=
  {| v_name := []; v_idNumber := []; v_city := []; v_address := [];
     v_company := []; v_phone := []; v_status := js "IN" |}.

(** The component state [handleImageCapture] touches. *)
Record VisitorModal : Type := {
  v_showCamera : bool;
  v_capturedImage : option str;
  v_isProcessingOCR : bool;
  v_form : VisitorForm;
  v_toasts : list Toast
}.

(** [form.setValue(field, value)], one per field the handler sets. *)
Definition setName (v : str) (f : VisitorForm) : VisitorForm :=
  {| v_name := v; v_idNumber := v_idNumber f; v_city := v_city f;
     v_address := v_address f; v_company := v_company f;
     v_phone := v_phone f; v_status := v_status f |}.
Definition setIdNumber (v : str) (f : VisitorForm) : VisitorForm :=
  {| v_name := v_name f; v_idNumber := v; v_city := v_city f;
     v_address := v_address f; v_company := v_company f;
     v_phone := v_phone f; v_status := v_status f |}.
Definition setAddress (v : str) (f : VisitorForm) : VisitorForm :=
  {| v_name := v_name f; v_idNumber := v_idNumber f; v_city := v_city f;
     v_address := v; v_company := v_company f;
     v_phone := v_phone f; v_status := v_status f |}.
Definition setCity (v : str) (f : VisitorForm) : VisitorForm :=
  {| v_name := v_name f; v_idNumber := v_idNumber f; v_city := v;
     v_address := v_address f; v_company := v_company f;
     v_phone := v_phone f; v_status := v_status f |}.

(** [if (extractedData.field) { form.setValue("field", extractedData.field) }] *)
Definition fillFrom (field : option str) (set : str -> VisitorForm -> VisitorForm)
                    (f : VisitorForm) : VisitorForm :=
  match field with
  | Some v => if truthy v then set v f else f
  | None => f
  end.

(** The four guarded [setValue] calls, in order. *)
Definition fillVisitorForm (extractedData : ExtractedIDData) (f : VisitorForm)
  : VisitorForm :=
  let f := fillFrom (name extractedData) setName f in
  let f := fillFrom (idNumber extractedData) setIdNumber f in
  let f := fillFrom (address extractedData) setAddress f in
  fillFrom (city extractedData) setCity f.

Definition toastProcessingID : Toast :=
  {| title := js "Processing ID Card";
     description := js "Extracting information from the image...";
     destructive := false |}.
Definition toastTextExtracted : Toast :=
  {| title := js "Text Extracted";
     description := js "Please review and correct the extracted information.";
     destructive := false |}.
Definition toastIDFailed : Toast :=
  {| title := js "OCR Processing Failed";
     description :=
       js "Could not extract text from image. Please fill the form manually.";
     destructive := true |}.

Definition pushToast (t : Toast) (s : VisitorModal) : VisitorModal :=
  {| v_showCamera := v_showCamera s; v_capturedImage := v_capturedImage s;
     v_isProcessingOCR := v_isProcessingOCR s; v_form := v_form s;
     v_toasts := v_toasts s ++ [t] |}.

Section VisitorHandler.
Variable recognize : str -> outcome str.

(** [handleImageCapture]: the three state setters, the [try] with its
    [catch], and the [finally].  [toast] and [form.setValue] are taken
    to return normally, so only the awaited extraction can reach the
    [catch]. *)
Definition visitorHandleImageCapture (imageData : str) (s : VisitorModal)
  : VisitorModal :=
  let s :=
    {| v_showCamera := false; v_capturedImage := Some imageData;
       v_isProcessingOCR := true; v_form := v_form s;
       v_toasts := v_toasts s |} in
  let s := pushToast toastProcessingID s in
  let s :=
    match extractIDCardText recognize imageData with
    | Fulfilled extractedData =>
        pushToast toastTextExtracted
          {| v_showCamera := v_showCamera s;
             v_capturedImage := v_capturedImage s;
             v_isProcessingOCR := v_isProcessingOCR s;
             v_form := fillVisitorForm extractedData (v_form s);
             v_toasts := v_toasts s |}
    | Threw => pushToast toastIDFailed s
    end in
  {| v_showCamera := v_showCamera s; v_capturedImage := v_capturedImage s;
     v_isProcessingOCR := false; v_form := v_form s;
     v_toasts := v_toasts s |}.
End VisitorHandler.

(** *** client/src/components/vehicle-modal.tsx *)

Record VehicleForm : Type := {
  c_plateNumber : str;
  c_ownerName : str;
  c_type : str;
  c_color : str;
  c_phone : str;
  c_status : str
}.

Record VehicleModal : Type := {
  c_showCamera : bool;
  c_capturedImage : option str;
  c_isProcessingOCR : bool;
  c_form : VehicleForm;
  c_toasts : list Toast
}.

Definition setPlateNumber (v : str) (f : VehicleForm) : VehicleForm :=
  {| c_plateNumber := v; c_ownerName := c_ownerName f; c_type := c_type f;
     c_color := c_color f; c_phone := c_phone f; c_status := c_status f |}.

Definition toastProcessingPlate : Toast :=
  {| title := js "Processing License Plate";
     description := js "Extracting plate number from the image...";
     destructive := false |}.
Definition toastPlateExtracted (plate : str) : Toast :=
  {| title := js "Plate Number Extracted";
     description :=
       js "Found: " ++ plate ++ js ". Please verify and correct if needed.";
     destructive := false |}.
Definition toastNoPlate : Toast :=
  {| title := js "No Plate Number Found";
     description := js "Please enter the plate number manually.";
     destructive := true |}.
Definition toastPlateFailed : Toast :=
  {| title := js "OCR Processing Failed";
     description := js "Could not extract plate number. Please enter manually.";
     destructive := true |}.

Definition pushVehicleToast (t : Toast) (s : VehicleModal) : VehicleModal :=
  {| c_showCamera := c_showCamera s; c_capturedImage := c_capturedImage s;
     c_isProcessingOCR := c_isProcessingOCR s; c_form := c_form s;
     c_toasts := c_toasts s ++ [t] |}.

Section VehicleHandler.
Variable recognize : str -> outcome str.

(** [handleImageCapture] of the vehicle form, read the same way. *)
Definition vehicleHandleImageCapture (imageData : str) (s : VehicleModal)
  : VehicleModal :=
  let s :=
    {| c_showCamera := false; c_capturedImage := Some imageData;
       c_isProcessingOCR := true; c_form := c_form s;
       c_toasts := c_toasts s |} in
  let s := pushVehicleToast toastProcessingPlate s in
  let s :=
    match extractLicensePlate recognize imageData with
    | Fulfilled extractedData =>
        if present (plateNumber extractedData) then
          match plateNumber extractedData with
          | Some plate =>
              pushVehicleToast (toastPlateExtracted plate)
                {| c_showCamera := c_showCamera s;
                   c_capturedImage := c_capturedImage s;
                   c_isProcessingOCR := c_isProcessingOCR s;
                   c_form := setPlateNumber plate (c_form s);
                   c_toasts := c_toasts s |}
          | None => s
          end
        else pushVehicleToast toastNoPlate s
    | Threw => pushVehicleToast toastPlateFailed s
    end in
  {| c_showCamera := c_showCamera s; c_capturedImage := c_capturedImage s;
     c_isProcessingOCR := false; c_form := c_form s;
     c_toasts := c_toasts s |}.
End VehicleHandler.

End Forms.

(* ================================================================= *)
(** ** Vocabulary of the further statements *)

Module Shapes.
Import JSNumber JSString RegExp Ocr Words.

(** Runs of white space replaced by one space each; [after] says that the
    previous character was white space. *)
Fixpoint squash (after : bool) (s : str) : str :=
  match s with
  | c :: s' =>
      if space c
      then (if after then squash true s' else 32 :: squash true s')
      else c :: squash false s'
  | [] => []
  end.

(** No two neighbours of the string are both in the class. *)
Definition no_double (p : Z -> bool) (s : str) : Prop :=
  forall a x y b, s = a ++ x :: y :: b -> p x = true -> p y = true -> False.

(** The first and the last character are outside the class. *)
Definition clear_ends (p : Z -> bool) (s : str) : Prop :=
  (exists c rest, s = c :: rest /\ p c = false) /\
  (exists front c, s = front ++ [c] /\ p c = false).

(** The scorers as functions of what they count. *)
Definition nameScoreOf (lettersAndSpaces len words capitalized : nat) : number :=
  let score := add zero (mul (ratio lettersAndSpaces len) n0_4) in
  let score :=
    if (2 <=? words)%nat && (words <=? 4)%nat then add score n0_3 else score in
  let score := add score (mul (ratio capitalized words) n0_2) in
  let score :=
    if (5 <=? len)%nat && (len <=? 40)%nat then add score n0_1 else score in
  Math_min score one.

Definition idScoreOf (hasNumbers hasLetters : bool) (clean len : nat) : number :=
  if negb hasNumbers && negb hasLetters then zero else
  let score := if hasNumbers then add zero n0_4 else zero in
  let score := if hasLetters && hasNumbers then add score n0_2 else score in
  let score := add score (mul (ratio clean len) n0_3) in
  let score :=
    if (6 <=? clean)%nat && (clean <=? 15)%nat then add score n0_1 else score in
  Math_min score one.

Definition plateScoreOf (hasNumbers hasLetters : bool) (len : nat)
                        (lettersDigits digitsLetters letterDigits : bool)
  : number :=
  if negb hasNumbers && negb hasLetters then zero else
  let score := if hasNumbers && hasLetters then add zero n0_5 else zero in
  let score :=
    if hasNumbers && negb hasLetters && (3 <=? len)%nat
    then add score n0_3 else score in
  let score :=
    if (4 <=? len)%nat && (len <=? 8)%nat then add score n0_3
    else if (3 <=? len)%nat && (len <=? 10)%nat then add score n0_1 else score in
  let score := if lettersDigits then add score n0_2 else score in
  let score := if digitsLetters then add score n0_2 else score in
  let score := if letterDigits then add score n0_15 else score in
  Math_min score one.

(** Every template match of one line, in the order the loops visit them. *)
Definition matchesOfLine (line : str) : list str :=
  let cleanLine := cleanPlateLine line in
  if (length cleanLine <? 3)%nat then []
  else flat_map (fun pattern => match_all pattern cleanLine) platePatterns.

Definition allMatches (lines : list str) : list str :=
  flat_map matchesOfLine lines.

(** What a returned plate is made of. *)
Definition plate_char (c : Z) : bool := upper c || digit c || only hyphen c.
End Shapes.

(* ================================================================= *)
(** * Proofs *)

Import JSNumber JSString RegExp Ocr Words Order Selection Claims.

Ltac decide_ranges :=
  repeat match goal with
         | |- context [?a <=? ?b] =>
             first [ rewrite (proj2 (Z.leb_le a b)) by lia
                   | rewrite (proj2 (Z.leb_gt a b)) by lia ]
         | |- context [?a =? ?b] =>
             first [ rewrite (proj2 (Z.eqb_neq a b)) by lia
                   | rewrite (proj2 (Z.eqb_eq a b)) by lia ]
         end.

Section NumberFacts.

Lemma shr_1_nonneg mrs : 0 <= shr_m mrs -> 0 <= shr_m (shr_1 mrs).
Proof.
  destruct mrs as [m r s]; simpl.
  destruct m as [|[p|p|]|p]; simpl; lia.
Qed.

Lemma iter_shr_1_nonneg n : forall mrs,
  0 <= shr_m mrs -> 0 <= shr_m (iter_pos shr_1 n mrs).
Proof.
  induction n as [n IH|n IH|]; intros mrs H; simpl.
  - apply IH, IH, shr_1_nonneg, H.
  - apply IH, IH, H.
  - apply shr_1_nonneg, H.
Qed.

Lemma shr_record_of_loc_m m l : shr_m (shr_record_of_loc m l) = m.
Proof. destruct l as [|[| |]]; reflexivity. Qed.

Lemma shr_fexp_nonneg m e l :
  0 <= m -> 0 <= shr_m (fst (shr_fexp prec emax m e l)).
Proof.
  intros H. unfold shr_fexp, shr.
  destruct (fexp prec emax (Zdigits2 m + e) - e) as [|p|p]; simpl;
    try (rewrite shr_record_of_loc_m; exact H).
  apply iter_shr_1_nonneg. rewrite shr_record_of_loc_m; exact H.
Qed.

Lemma round_nearest_even_nonneg m l : 0 <= m -> 0 <= round_nearest_even m l.
Proof.
  intros H. destruct l as [|[| |]]; simpl; try lia.
  destruct (Z.even m); lia.
Qed.

Lemma binary_round_aux_nonneg m e l :
  0 <= m -> nonneg (binary_round_aux prec emax false m e l) = true.
Proof.
  intros H. unfold binary_round_aux.
  pose proof (shr_fexp_nonneg e l H) as H1.
  destruct (shr_fexp prec emax m e l) as [mrs' e']; simpl in H1.
  pose proof (round_nearest_even_nonneg (loc_of_shr_record mrs') H1) as H2.
  pose proof (shr_fexp_nonneg e' loc_Exact H2) as H3.
  destruct (shr_fexp prec emax _ e' loc_Exact) as [mrs'' e'']; simpl in H3.
  destruct (shr_m mrs'') as [|p|p]; try reflexivity; try lia.
  destruct (e'' <=? emax - prec); reflexivity.
Qed.

Lemma binary_round_nonneg m e : nonneg (binary_round prec emax false m e) = true.
Proof.
  unfold binary_round.
  destruct (shl_align m e _) as [mz ez].
  apply binary_round_aux_nonneg. lia.
Qed.

Lemma add_nonneg x y : nonneg x = true -> nonneg y = true -> nonneg (add x y) = true.
Proof.
  destruct x as [[|]|[|]| |[|] mx ex], y as [[|]|[|]| |[|] my ey];
    simpl; try discriminate; try reflexivity. intros _ _.
  unfold add, SFadd, cond_Zopp.
  set (a := fst (shl_align mx ex _)). set (b := fst (shl_align my ey _)).
  change (Z.pos a + Z.pos b) with (Z.pos (a + b)).
  apply binary_round_nonneg.
Qed.

Lemma mul_nonneg_finite x m e :
  nonneg x = true -> nonneg (mul x (S754_finite false m e)) = true.
Proof.
  destruct x as [[|]|[|]| |[|] mx ex]; simpl; try discriminate; try reflexivity.
  intros _. apply binary_round_aux_nonneg. lia.
Qed.

Lemma of_Z_nonneg z : 0 <= z -> nonneg (of_Z z) = true.
Proof.
  intros H. unfold of_Z, binary_normalize. destruct z; try lia; try reflexivity.
  apply binary_round_nonneg.
Qed.

Lemma div_nonneg_finite x m e :
  nonneg x = true -> nonneg (div x (S754_finite false m e)) = true.
Proof.
  destruct x as [[|]|[|]| |[|] mx ex]; simpl; try discriminate; try reflexivity.
  intros _. unfold div, SFdiv, SFdiv_core_binary.
  match goal with |- context [Z.div_eucl ?a ?b] =>
    pose proof (Z.div_eucl_eq a b ltac:(lia)) as Hq;
    pose proof (Z.mod_pos_bound a b ltac:(lia)) as Hr;
    assert (0 <= a) as Ha; [| unfold Z.modulo in Hr; destruct (Z.div_eucl a b) as [q r] ]
  end.
  - destruct (_ - _ - _) as [|p|p]; try lia. rewrite Z.shiftl_mul_pow2 by lia.
    apply Z.mul_nonneg_nonneg; [lia | apply Z.pow_nonneg; lia].
  - simpl. apply binary_round_aux_nonneg. nia.
Qed.

Lemma digits2_pos_le p : forall n, 0 <= n -> Z.pos p < 2 ^ n -> Z.pos (digits2_pos p) <= n.
Proof.
  induction p as [p IH|p IH|]; intros n Hn H; simpl.
  - assert (n <> 0) by (intros ->; simpl in H; lia).
    replace n with (Z.succ (n - 1)) in H by lia. rewrite Z.pow_succ_r in H by lia.
    specialize (IH (n - 1)). lia.
  - assert (n <> 0) by (intros ->; simpl in H; lia).
    replace n with (Z.succ (n - 1)) in H by lia. rewrite Z.pow_succ_r in H by lia.
    specialize (IH (n - 1)). lia.
  - assert (n <> 0) by (intros ->; simpl in H; lia). lia.
Qed.

Lemma digits2_pos_iter p k :
  digits2_pos (Pos.iter xO p k) = (digits2_pos p + k)%positive.
Proof.
  induction k as [|k IH] using Pos.peano_ind.
  - simpl. lia.
  - rewrite Pos.iter_succ. simpl. rewrite IH. lia.
Qed.

Lemma binary_round_aux_exact m e :
  Z.pos (digits2_pos m) = prec -> -1074 <= e <= 971 ->
  binary_round_aux prec emax false (Z.pos m) e loc_Exact = S754_finite false m e.
Proof.
  intros Hd He.
  assert (Hs : shr_fexp prec emax (Z.pos m) e loc_Exact
               = (Build_shr_record (Z.pos m) false false, e)).
  { unfold shr_fexp, fexp, emin. simpl Zdigits2. rewrite Hd.
    unfold prec, emax in *.
    replace (Z.max (53 + e - 53) (3 - 1024 - 53) - e) with 0 by lia.
    reflexivity. }
  unfold binary_round_aux. rewrite Hs. simpl round_nearest_even. rewrite Hs.
  simpl shr_m. unfold prec, emax.
  destruct (e <=? 1024 - 53) eqn:E; [reflexivity | lia].
Qed.

Lemma of_Z_finite z :
  1 <= z < 2 ^ 53 -> exists m e, of_Z z = S754_finite false m e.
Proof.
  intros [H1 H2]. destruct z as [|p|p]; try lia.
  pose proof (@digits2_pos_le p 53 ltac:(lia) H2) as Hd.
  unfold of_Z, binary_normalize, binary_round, shl_align, fexp, emin.
  unfold prec, emax in *.
  replace (Z.max (Z.pos (digits2_pos p) + 0 - 53) (3 - 1024 - 53))
    with (Z.pos (digits2_pos p) - 53) by lia.
  destruct (Z.pos (digits2_pos p) - 53 - 0) as [|k|k] eqn:E; try lia.
  - eexists _, _. apply binary_round_aux_exact; unfold prec; lia.
  - eexists _, _. apply binary_round_aux_exact; [|lia].
    rewrite digits2_pos_iter. unfold prec. lia.
Qed.

Lemma ratio_nonneg a b :
  1 <= Z.of_nat b < 2 ^ 53 -> nonneg (ratio a b) = true.
Proof.
  intros H. unfold ratio, of_nat.
  destruct (of_Z_finite H) as (m & e & ->).
  apply div_nonneg_finite, of_Z_nonneg. lia.
Qed.

Lemma compare_zero_nonneg x :
  nonneg x = true -> le zero x = true.
Proof.
  destruct x as [[|]|[|]| |[|] mx ex]; simpl; try discriminate; reflexivity.
Qed.

Lemma Math_min_one x : nonneg x = true -> nonneg (Math_min x one) = true.
Proof.
  intros H. unfold Math_min.
  destruct (SFcompare x one) as [[| |]|] eqn:E.
  - destruct x as [[|]|[|]| |[|] mx ex]; try discriminate H; reflexivity.
  - exact H.
  - reflexivity.
  - destruct x as [[|]|[|]| |[|] mx ex]; try discriminate H; discriminate E.
Qed.

Lemma Math_min_one_le x : nonneg x = true -> le (Math_min x one) one = true.
Proof.
  intros H. unfold Math_min, le, SFleb.
  destruct (SFcompare x one) as [[| |]|] eqn:E.
  - destruct x as [[|]|[|]| |[|] mx ex]; try discriminate H; reflexivity.
  - rewrite E. reflexivity.
  - reflexivity.
  - destruct x as [[|]|[|]| |[|] mx ex]; try discriminate H; discriminate E.
Qed.

Lemma Math_min_one_unit x : nonneg x = true -> in_unit (Math_min x one) = true.
Proof.
  intros H. unfold in_unit.
  rewrite (compare_zero_nonneg _ (Math_min_one _ H)), (Math_min_one_le _ H). reflexivity.
Qed.

End NumberFacts.

Section MatcherFacts.

Lemma quant_sound rest : forall p lo hi prev y,
  In y (quant p lo hi prev rest) ->
  exists w, rest = w ++ snd y /\ den (Quant p lo hi) w.
Proof.
  induction rest as [|c rest' IH]; intros p lo hi prev y Hy.
  - exists []. simpl in Hy. destruct lo; simpl in Hy; [|tauto].
    destruct Hy as [<-|[]]. simpl. repeat split; auto. destruct hi; auto. lia.
  - assert (Hstop : In y (match lo with O => [(prev, c :: rest')] | S _ => [] end) ->
              exists w, c :: rest' = w ++ snd y /\ den (Quant p lo hi) w).
    { destruct lo; simpl; [|tauto]. intros [<-|[]]. exists []. simpl.
      repeat split; auto. destruct hi; auto. lia. }
    simpl in Hy. destruct (p c && room hi) eqn:E; [|auto].
    apply in_app_or in Hy. destruct Hy as [Hy|Hy]; [|auto].
    apply andb_prop in E. destruct E as [Hp Hroom].
    destruct (IH _ _ _ _ _ Hy) as (w & Hw & Hf & Hlo & Hhi).
    exists (c :: w). simpl. rewrite Hw. split; [reflexivity|].
    repeat split.
    + constructor; assumption.
    + lia.
    + destruct hi as [[|h]|]; simpl in *; try discriminate; auto. lia.
Qed.

Lemma run_sound r : forall x y,
  In y (run r x) -> exists w, snd x = w ++ snd y /\ den r w.
Proof.
  induction r as [p|p lo hi|a IH|a IHa b IHb| | |]; intros [prev rest] y Hy; simpl in Hy.
  - destruct rest as [|c rest']; [destruct Hy|]. destruct (p c) eqn:E; [|destruct Hy].
    destruct Hy as [<-|[]]. exists [c]. simpl. eauto.
  - eapply quant_sound; eassumption.
  - apply in_app_or in Hy. destruct Hy as [Hy|[<-|[]]].
    + apply filter_In in Hy. destruct Hy as [Hy _].
      destruct (IH _ _ Hy) as (w & Hw & Hd). exists w. simpl; auto.
    + exists []. simpl; auto.
  - apply in_flat_map in Hy. destruct Hy as (z & Hz & Hy).
    destruct (IHa _ _ Hz) as (u & Hu & Hdu).
    destruct (IHb _ _ Hy) as (v & Hv & Hdv).
    exists (u ++ v). simpl in *. rewrite Hu, Hv, app_assoc. split; [reflexivity|].
    exists u, v. auto.
  - destruct prev; [destruct Hy|]. destruct Hy as [<-|[]]. exists []. simpl; auto.
  - destruct rest; [|destruct Hy]. destruct Hy as [<-|[]]. exists []. simpl; auto.
  - destruct (xorb _ _); [|destruct Hy]. destruct Hy as [<-|[]]. exists []. simpl; auto.
Qed.

Lemma match_here_sound r prev rest n :
  match_here r prev rest = Some n ->
  exists w rest', rest = w ++ rest' /\ List.length w = n /\ den r w.
Proof.
  unfold match_here. destruct (run r (prev, rest)) as [|y ys] eqn:E; [discriminate|].
  intros [= <-].
  destruct (@run_sound r (prev, rest) y) as (w & Hw & Hd); [rewrite E; left; reflexivity|].
  simpl in Hw. exists w, (snd y). rewrite Hw at 2. rewrite length_app.
  repeat split; auto. lia.
Qed.

Lemma match_here_firstn r prev rest n :
  match_here r prev rest = Some n ->
  den r (firstn n rest) /\ rest = firstn n rest ++ skipn n rest /\ (n <= List.length rest)%nat.
Proof.
  intros H. destruct (match_here_sound _ _ _ H) as (w & rest' & -> & <- & Hd).
  rewrite firstn_app, Nat.sub_diag, firstn_all, firstn_O, app_nil_r.
  rewrite skipn_app, Nat.sub_diag, skipn_all, skipn_O. simpl.
  rewrite length_app. repeat split; auto. lia.
Qed.

Lemma match_from_sound r rest : forall prev skip m,
  In m (match_from r prev rest skip) ->
  den r m /\ exists a b, rest = a ++ m ++ b.
Proof.
  induction rest as [|c rest' IH]; intros prev skip m Hm; simpl in Hm.
  - destruct skip; [|destruct Hm].
    destruct (match_here r prev []) as [n|] eqn:E; [|destruct Hm].
    destruct Hm as [<-|[]].
    destruct (match_here_firstn _ _ _ E) as (Hd & _ & _).
    split; [assumption|]. exists [], []. destruct n; reflexivity.
  - assert (Hrec : forall prev' skip', In m (match_from r prev' rest' skip') ->
              den r m /\ exists a b, c :: rest' = a ++ m ++ b).
    { intros prev' skip' H. destruct (IH _ _ _ H) as (Hd & a & b & ->).
      split; [assumption|]. exists (c :: a), b. reflexivity. }
    destruct skip; [|eauto].
    destruct (match_here r prev (c :: rest')) as [n|] eqn:E; [|eauto].
    destruct Hm as [<-|Hm]; [|eauto].
    destruct (match_here_firstn _ _ _ E) as (Hd & Hs & _).
    split; [assumption|]. exists [], (skipn n (c :: rest')). exact Hs.
Qed.

Lemma match_all_sound r s m :
  In m (match_all r s) -> den r m /\ exists a b, s = a ++ m ++ b.
Proof. apply match_from_sound. Qed.

(** One character of a class *)

Lemma match_here_cls p prev c s :
  match_here (Cls p) prev (c :: s) = if p c then Some 1%nat else None.
Proof.
  unfold match_here. cbn [run snd]. destruct (p c); [|reflexivity].
  cbn [snd List.length]. f_equal. lia.
Qed.

Lemma match_here_cls_nil p prev : match_here (Cls p) prev [] = None.
Proof. reflexivity. Qed.

Lemma test_from_cls p s : forall prev, test_from (Cls p) prev s = existsb p s.
Proof.
  induction s as [|c s IH]; intros prev; [reflexivity|].
  cbn [test_from]. rewrite match_here_cls. simpl. destruct (p c); simpl; auto.
Qed.

Lemma test_cls p s : test (Cls p) s = existsb p s.
Proof. apply test_from_cls. Qed.

Lemma replace_from_cls p s : forall prev,
  replace_from (Cls p) [] prev s 0 = filter (neg p) s.
Proof.
  induction s as [|c s IH]; intros prev; [reflexivity|].
  cbn [replace_from]. rewrite match_here_cls. unfold neg at 1. simpl.
  destruct (p c); simpl; rewrite IH; reflexivity.
Qed.

Lemma replace_cls p s : replace (Cls p) [] s = filter (neg p) s.
Proof. apply replace_from_cls. Qed.

Lemma match_from_cls p s : forall prev,
  List.length (match_from (Cls p) prev s 0) = count p s.
Proof.
  induction s as [|c s IH]; intros prev; [reflexivity|].
  cbn [match_from]. rewrite match_here_cls. unfold count. simpl.
  destruct (p c); simpl; rewrite IH; reflexivity.
Qed.

(** Greedy runs *)

Lemma run_length_le p s : (run_length p s <= List.length s)%nat.
Proof. induction s as [|c s IH]; simpl; [lia|]. destruct (p c); simpl; lia. Qed.

Lemma quant_greedy p rest : forall lo prev,
  (lo <= run_length p rest)%nat ->
  exists prev' tail,
    quant p lo None prev rest = (prev', skipn (run_length p rest) rest) :: tail.
Proof.
  induction rest as [|c rest' IH]; intros lo prev Hlo; simpl in *.
  - destruct lo; [|lia]. eauto.
  - destruct (p c) eqn:E; simpl.
    + destruct (IH (Nat.pred lo) (Some c) ltac:(lia)) as (prev' & tail & ->).
      simpl. eauto.
    + destruct lo; [|lia]. eauto.
Qed.

Lemma quant_short p rest : forall lo prev,
  (run_length p rest < lo)%nat -> quant p lo None prev rest = [].
Proof.
  induction rest as [|c rest' IH]; intros lo prev Hlo; simpl in *.
  - destruct lo; [lia|reflexivity].
  - destruct (p c) eqn:E; simpl.
    + rewrite IH by lia. destruct lo; [lia|reflexivity].
    + destruct lo; [lia|reflexivity].
Qed.

Lemma match_here_plus p prev rest :
  match_here (plus p) prev rest =
  match run_length p rest with O => None | S k => Some (S k) end.
Proof.
  unfold match_here, plus. cbn [run fst snd].
  destruct (run_length p rest) as [|k] eqn:E.
  - rewrite quant_short by lia. reflexivity.
  - destruct (@quant_greedy p rest 1%nat prev ltac:(lia)) as (prev' & tail & ->).
    cbn [snd]. rewrite length_skipn, E. f_equal.
    pose proof (run_length_le p rest). lia.
Qed.

Lemma replace_from_plus p rest : forall prev skip,
  (skip <= run_length p rest)%nat ->
  replace_from (plus p) [] prev rest skip = filter (neg p) rest.
Proof.
  induction rest as [|c rest' IH]; intros prev skip Hs.
  - simpl in Hs. destruct skip; [|lia]. reflexivity.
  - cbn [replace_from]. destruct skip as [|k].
    + rewrite match_here_plus. simpl in *. unfold neg at 1.
      destruct (p c) eqn:E; simpl.
      * apply IH. lia.
      * rewrite IH by lia. reflexivity.
    + simpl in *. unfold neg at 1. destruct (p c) eqn:E; [|lia]. simpl.
      apply IH. lia.
Qed.

Lemma replace_plus p s : replace (plus p) [] s = filter (neg p) s.
Proof. apply replace_from_plus. lia. Qed.

End MatcherFacts.

Section OrderFacts.

Lemma gt_below a b :
  nonneg a = true -> nonneg b = true ->
  (gt a b = true <-> below (key b) (key a)).
Proof.
  unfold gt, SFltb, below.
  destruct a as [[|]|[|]| |[|] ma ea], b as [[|]|[|]| |[|] mb eb];
    simpl; try discriminate; intros _ _;
    try (split; [discriminate | lia]); try (split; [lia | reflexivity]).
  change (Pos.compare_cont Eq mb ma) with (Pos.compare mb ma).
  destruct (Z.compare_spec eb ea); destruct (Pos.compare_spec mb ma);
    split; try discriminate; try reflexivity; lia.
Qed.

Lemma gt_trans a b c :
  nonneg a = true -> nonneg b = true -> nonneg c = true ->
  gt a b = true -> gt b c = true -> gt a c = true.
Proof.
  intros Ha Hb Hc. rewrite !gt_below by assumption.
  unfold below. destruct (key a) as (?&?&?), (key b) as (?&?&?), (key c) as (?&?&?).
  simpl. lia.
Qed.

(** [b <= c < a] gives [b < a]. *)
Lemma gt_above a b c :
  nonneg a = true -> nonneg b = true -> nonneg c = true ->
  gt b c = false -> gt a c = true -> gt a b = true.
Proof.
  intros Ha Hb Hc H1. rewrite !gt_below by assumption.
  assert (H1' : ~ below (key c) (key b)).
  { rewrite <- gt_below by assumption. rewrite H1. discriminate. }
  revert H1'.
  unfold below. destruct (key a) as (?&?&?), (key b) as (?&?&?), (key c) as (?&?&?).
  simpl. lia.
Qed.

(** [c < b] and [a <= c] give that [a] is not above [b]. *)
Lemma gt_under a b c :
  nonneg a = true -> nonneg b = true -> nonneg c = true ->
  gt b c = true -> gt a c = false -> gt a b = false.
Proof.
  intros Ha Hb Hc H1 H2.
  destruct (gt a b) eqn:E; [|reflexivity].
  assert (H2' : ~ below (key c) (key a)).
  { rewrite <- gt_below by assumption. rewrite H2. discriminate. }
  rewrite gt_below in H1, E by assumption.
  revert H1 E H2'.
  unfold below. destruct (key a) as (?&?&?), (key b) as (?&?&?), (key c) as (?&?&?).
  simpl. lia.
Qed.

Lemma gt_zero a b :
  nonneg a = true -> nonneg b = true -> gt a b = true -> gt a zero = true.
Proof.
  intros Ha Hb. rewrite !gt_below by (assumption || reflexivity).
  unfold below. 
  destruct a as [[|]|[|]| |[|] ma ea], b as [[|]|[|]| |[|] mb eb];
    simpl; try discriminate; lia.
Qed.

End OrderFacts.

Section SplitFacts.

Lemma skipn_run_length_In p c s :
  In c s -> p c = false -> In c (skipn (run_length p s) s).
Proof.
  induction s as [|d s IH]; simpl; [tauto|].
  intros [->|H] Hc.
  - rewrite Hc. simpl. auto.
  - destruct (p d); simpl; auto.
Qed.

Lemma split_from_word rest : forall prev cur skip,
  (skip <= run_length space rest)%nat ->
  (cur <> [] /\ skip = O) \/ (exists c, In c (skipn skip rest) /\ space c = false) ->
  exists w, In w (split_from (plus space) prev rest cur skip) /\ w <> [].
Proof.
  induction rest as [|c rest' IH]; intros prev cur skip Hs H.
  - exists (rev cur). simpl. split; [auto|].
    destruct H as [[H _]|(c & Hc & _)].
    + intros E. apply H. rewrite <- (rev_involutive cur), E. reflexivity.
    + destruct skip; destruct Hc.
  - cbn [split_from]. destruct skip as [|k].
    + rewrite match_here_plus. simpl in Hs |- *.
      destruct (space c) eqn:E.
      * destruct H as [[H _]|(d & Hd & Hsp)].
        -- exists (rev cur). split; [left; reflexivity|].
           intros E'. apply H. rewrite <- (rev_involutive cur), E'. reflexivity.
        -- destruct (IH (Some c) [] (run_length space rest') ltac:(lia)) as (w & Hw & Hne).
           { right. exists d. split; [|assumption].
             apply skipn_run_length_In; [|assumption].
             simpl in Hd. destruct Hd as [<-|Hd]; [congruence|assumption]. }
           exists w. split; [right; assumption|assumption].
      * apply IH; [lia|]. left. split; [discriminate|reflexivity].
    + simpl in Hs. destruct (space c) eqn:E; [|lia].
      apply IH; [lia|]. right.
      destruct H as [[_ H]|H]; [discriminate|]. exact H.
Qed.

Lemma split_from_total r rest : forall prev cur skip,
  (list_sum (map (@List.length Z) (split_from r prev rest cur skip))
   <= List.length cur + List.length rest)%nat.
Proof.
  induction rest as [|c rest' IH]; intros prev cur skip.
  - simpl. rewrite length_rev. lia.
  - cbn [split_from]. destruct skip as [|k].
    + destruct (match_here r prev (c :: rest')) as [[|n]|].
      * destruct cur as [|d cur].
        -- specialize (IH (Some c) [c] O). simpl in *. lia.
        -- specialize (IH (Some c) [c] O). cbn [map list_sum].
           rewrite length_rev. simpl in *. lia.
      * specialize (IH (Some c) [] n). cbn [map list_sum].
        rewrite length_rev. simpl in *. lia.
      * specialize (IH (Some c) (c :: cur) O). simpl in *. lia.
    + specialize (IH (Some c) [] k). simpl in *. lia.
Qed.

Lemma nonempty_pieces_le (pieces : list str) :
  (List.length (filter (fun w => (0 <? length w)%nat) pieces)
   <= list_sum (map (@List.length Z) pieces))%nat.
Proof.
  induction pieces as [|w ws IH]; simpl; [lia|].
  unfold length at 1. destruct (Nat.ltb_spec 0 (List.length w)); simpl; lia.
Qed.

Lemma letter_bounds c : letter c = true -> 65 <= c <= 122.
Proof.
  unfold letter, upper, lower, in_range. intros H.
  apply orb_prop in H. destruct H as [H|H]; apply andb_prop in H;
    destruct H as [H1 H2]; apply Z.leb_le in H1, H2; lia.
Qed.

Lemma letter_not_space c : letter c = true -> space c = false.
Proof.
  intros H. apply letter_bounds in H.
  unfold space, in_range, only. decide_ranges. reflexivity.
Qed.

(** The words of a line that holds a letter. *)
Lemma words_of_line line :
  test re_letter line = true ->
  let words := filter (fun w => (0 <? length w)%nat) (split re_spaces line) in
  (1 <= List.length words <= List.length line)%nat.
Proof.
  unfold re_letter. rewrite test_cls. intros H.
  apply existsb_exists in H. destruct H as (c & Hc & Hl).
  destruct line as [|d line']; [destruct Hc|].
  unfold split, re_spaces. split.
  - destruct (@split_from_word (d :: line') None [] O ltac:(lia)) as (w & Hw & Hne).
    { right. exists c. split; [exact Hc|]. apply letter_not_space, Hl. }
    assert (Hin : In w (filter (fun w => (0 <? length w)%nat)
                          (split_from (plus space) None (d :: line') [] 0))).
    { apply filter_In. split; [assumption|]. destruct w; [congruence|reflexivity]. }
    destruct (filter _ _); [destruct Hin|simpl; lia].
  - etransitivity; [apply nonempty_pieces_le|].
    etransitivity; [apply split_from_total|]. simpl. lia.
Qed.

End SplitFacts.

Section ScoreFacts.

(** A sum of non-negative terms, as the scorers build it. *)
Ltac sum_nonneg :=
  repeat match goal with
         | |- nonneg (if ?b then _ else _) = true => destruct b
         | |- nonneg (add _ _) = true => apply add_nonneg
         | |- nonneg (mul _ _) = true => apply mul_nonneg_finite
         | |- nonneg (ratio _ _) = true => apply ratio_nonneg; lia
         | |- nonneg _ = true => reflexivity
         end.

Lemma test_cls_length p line :
  test (Cls p) line = true -> (1 <= List.length line)%nat.
Proof.
  rewrite test_cls. destruct line; [discriminate|]. simpl. lia.
Qed.

Lemma bounded_min x : nonneg x = true -> bounded (Math_min x one).
Proof. intros H. split; [apply Math_min_one|apply Math_min_one_unit]; exact H. Qed.

Lemma bounded_zero : bounded zero.
Proof. split; reflexivity. Qed.

Lemma calculateNameScore_bounded line :
  Z.of_nat (length line) < 2 ^ 53 -> bounded (calculateNameScore line).
Proof.
  intros Hlen. unfold calculateNameScore.
  destruct (test re_letter line) eqn:Hl; simpl negb; cbv iota; [|apply bounded_zero].
  pose proof (words_of_line line Hl) as Hw. cbv zeta in Hw.
  pose proof (test_cls_length _ _ Hl) as Hn. unfold length in *.
  apply bounded_min. sum_nonneg.
Qed.

Lemma calculateIdScore_bounded line :
  Z.of_nat (length line) < 2 ^ 53 -> bounded (calculateIdScore line).
Proof.
  intros Hlen. unfold calculateIdScore.
  assert (Hn : test re_digit line || test re_letter line = true ->
               (1 <= List.length line)%nat).
  { intros H. apply orb_prop in H. destruct H as [H|H];
      eapply test_cls_length; exact H. }
  destruct (test re_digit line) eqn:Hd, (test re_letter line) eqn:Hl;
    simpl negb; simpl andb; cbv iota; try apply bounded_zero;
    specialize (Hn eq_refl); unfold length in *;
    apply bounded_min; sum_nonneg.
Qed.

Lemma calculatePlateScore_bounded text : bounded (calculatePlateScore text).
Proof.
  unfold calculatePlateScore.
  destruct (negb _ && negb _); [apply bounded_zero|].
  apply bounded_min. sum_nonneg.
Qed.

End ScoreFacts.

Section SelectionFacts.
Variable eligible : str -> bool.
Variable score : str -> number.
Variable threshold : number.
Hypothesis threshold_nonneg : nonneg threshold = true.

Lemma chosen_step processed best y :
  (forall x, In x processed -> nonneg (score x) = true) ->
  nonneg (score y) = true ->
  chosen eligible score threshold processed best ->
  chosen eligible score threshold (processed ++ [y])
         (sel_step eligible score threshold best y).
Proof.
  intros Hp Hy Hc. unfold sel_step.
  destruct (eligible y) eqn:Ey.
  - unfold best_step.
    destruct Hc as [[-> Hnone]|(pre & post & Hls & He & Hs & Hthr & Hpre & Hpost)].
    + cbn [snd].
      destruct (gt (score y) threshold) eqn:Ethr.
      * rewrite (gt_zero (score y) threshold Hy threshold_nonneg Ethr). cbn [andb].
        right. exists processed, []. cbn [fst snd]. repeat split; auto.
        -- intros x Hx Ex. apply gt_above with (c := threshold); auto.
        -- intros x [].
      * rewrite andb_false_r. left. split; [reflexivity|].
        intros x Hx Ex. apply in_app_or in Hx. destruct Hx as [Hx|[<-|[]]]; auto.
    + assert (Hin : In (fst best) processed).
      { rewrite Hls. apply in_or_app. right. left. reflexivity. }
      pose proof (Hp _ Hin) as Hb.
      destruct (gt (score y) (snd best) && gt (score y) threshold) eqn:Econd.
      * apply andb_prop in Econd. destruct Econd as [E1 E2]. rewrite Hs in E1.
        right. exists processed, []. cbn [fst snd]. repeat split; auto.
        -- intros x Hx Ex. rewrite Hls in Hx.
           apply in_app_or in Hx. destruct Hx as [Hx|[<-|Hx]].
           ++ apply gt_trans with (b := score (fst best)); auto.
              apply Hp. rewrite Hls. apply in_or_app. auto.
           ++ assumption.
           ++ apply gt_above with (c := score (fst best)); auto.
              apply Hp. rewrite Hls. apply in_or_app. right. right. assumption.
        -- intros x [].
      * right. exists pre, (post ++ [y]). repeat split; auto.
        -- rewrite Hls, <- app_assoc. reflexivity.
        -- intros x Hx Ex. apply in_app_or in Hx. destruct Hx as [Hx|[Hx|[]]]; auto.
           subst x. rewrite Hs in Econd.
           destruct (gt (score y) (score (fst best))) eqn:E1; [|reflexivity].
           cbn [andb] in Econd.
           rewrite (gt_under (score y) (score (fst best)) threshold Hy Hb
                      threshold_nonneg Hthr Econd) in E1. discriminate.
  - destruct Hc as [[-> Hnone]|(pre & post & Hls & He & Hs & Hthr & Hpre & Hpost)].
    + left. split; [reflexivity|].
      intros x Hx Ex. apply in_app_or in Hx. destruct Hx as [Hx|[<-|[]]]; auto.
      congruence.
    + right. exists pre, (post ++ [y]). repeat split; auto.
      * rewrite Hls, <- app_assoc. reflexivity.
      * intros x Hx Ex. apply in_app_or in Hx. destruct Hx as [Hx|[<-|[]]]; auto.
        congruence.
Qed.

Lemma chosen_fold ls : forall processed best,
  (forall x, In x (processed ++ ls) -> nonneg (score x) = true) ->
  chosen eligible score threshold processed best ->
  chosen eligible score threshold (processed ++ ls)
         (fold_left (sel_step eligible score threshold) ls best).
Proof.
  induction ls as [|y ls IH]; intros processed best Hnn Hc.
  - rewrite app_nil_r. exact Hc.
  - cbn [fold_left].
    replace (processed ++ y :: ls) with ((processed ++ [y]) ++ ls) in *
      by (rewrite <- app_assoc; reflexivity).
    apply IH; [assumption|].
    apply chosen_step; [| |assumption].
    + intros x Hx. apply Hnn. apply in_or_app. left. apply in_or_app. auto.
    + apply Hnn. apply in_or_app. left. apply in_or_app. right. left. reflexivity.
Qed.

Lemma chosen_all ls :
  (forall x, In x ls -> nonneg (score x) = true) ->
  chosen eligible score threshold ls
         (fold_left (sel_step eligible score threshold) ls ([], zero)).
Proof.
  intros Hnn. apply (@chosen_fold ls [] ([], zero)); [exact Hnn|].
  left. split; [reflexivity|]. intros x [].
Qed.
End SelectionFacts.

Section HyphenFacts.

Local Abbreviation h := (only hyphen).

Lemma match_here_hyphens prev rest :
  match_here re_hyphens prev rest =
  match rest with
  | c :: rest' =>
      if h c then
        match run_length h rest' with
        | O => None
        | S k => Some (S (S k))
        end
      else None
  | [] => None
  end.
Proof.
  destruct rest as [|c rest']; [reflexivity|].
  unfold match_here, re_hyphens, plus. cbn [seq run fst snd flat_map]. fold h.
  destruct (h c) eqn:E; [|reflexivity].
  cbn [flat_map run fst snd]. rewrite app_nil_r.
  destruct (run_length h rest') as [|k] eqn:R.
  - rewrite quant_short by lia. reflexivity.
  - destruct (@quant_greedy h rest' 1%nat (Some c) ltac:(lia)) as (prev' & tail & ->).
    cbn [snd List.length]. rewrite length_skipn, R. f_equal.
    pose proof (run_length_le h rest'). lia.
Qed.

Lemma squeeze_flag s : run_length h s = O -> squeeze true s = squeeze false s.
Proof.
  destruct s as [|c s]; [reflexivity|]. simpl. fold h.
  destruct (h c); [discriminate|reflexivity].
Qed.

Lemma replace_from_hyphens rest :
  (forall prev, replace_from re_hyphens [hyphen] prev rest 0 = squeeze false rest) /\
  (forall prev skip, skip = run_length h rest ->
     replace_from re_hyphens [hyphen] prev rest skip = squeeze true rest).
Proof.
  induction rest as [|c rest' [IH1 IH2]].
  - split; [reflexivity|]. intros prev skip ->. reflexivity.
  - assert (H1 : forall prev,
               replace_from re_hyphens [hyphen] prev (c :: rest') 0
               = squeeze false (c :: rest')).
    { intros prev. cbn [replace_from]. rewrite match_here_hyphens.
      cbn [squeeze]. fold h. destruct (h c) eqn:E.
      - destruct (run_length h rest') as [|k] eqn:R.
        + rewrite IH1, (squeeze_flag rest' R). reflexivity.
        + cbn [Nat.pred app]. rewrite (IH2 (Some c) (S k) eq_refl).
          unfold h, only in E. apply Z.eqb_eq in E. subst c. reflexivity.
      - rewrite IH1. reflexivity. }
    split; [exact H1|].
    intros prev skip ->. cbn [run_length]. cbn [squeeze]. fold h.
    destruct (h c) eqn:E.
    + cbn [replace_from]. apply IH2. reflexivity.
    + rewrite H1. cbn [squeeze]. fold h. rewrite E. reflexivity.
Qed.

Lemma formatPlate_spec s :
  formatPlate s = squeeze false (filter (neg space) s).
Proof.
  unfold formatPlate, re_spaces. rewrite replace_plus.
  apply (proj1 (replace_from_hyphens _)).
Qed.

End HyphenFacts.

Lemma list_sum_cons x l : list_sum (x :: l) = (x + list_sum l)%nat.
Proof. reflexivity. Qed.

Section CountFacts.
Variable p : Z -> bool.

Lemma count_app a b : count p (a ++ b) = (count p a + count p b)%nat.
Proof. unfold count. rewrite filter_app, length_app. reflexivity. Qed.

Lemma count_rev s : count p (rev s) = count p s.
Proof.
  induction s as [|c s IH]; [reflexivity|].
  simpl rev. rewrite count_app, IH. unfold count. simpl.
  destruct (p c); simpl; lia.
Qed.

Lemma count_le_length s : (count p s <= List.length s)%nat.
Proof. apply filter_length_le. Qed.

Lemma count_dropWhile q s : (count p (dropWhile q s) <= count p s)%nat.
Proof.
  induction s as [|c s IH]; [simpl; lia|]. simpl.
  destruct (q c); [|lia]. unfold count in *. simpl. destruct (p c); simpl; lia.
Qed.

Lemma count_trim s : (count p (trim s) <= count p s)%nat.
Proof.
  unfold trim. rewrite count_rev.
  etransitivity; [apply count_dropWhile|]. rewrite count_rev.
  apply count_dropWhile.
Qed.

Lemma count_filter q s : (count p (filter q s) <= count p s)%nat.
Proof.
  induction s as [|c s IH]; [simpl; lia|]. unfold count in *. simpl.
  destruct (q c), (p c) eqn:E; simpl; rewrite ?E; simpl; lia.
Qed.

Lemma count_all s : Forall (fun c => p c = true) s -> count p s = List.length s.
Proof.
  induction 1 as [|c s Hc _ IH]; [reflexivity|].
  unfold count in *. simpl. rewrite Hc. simpl. rewrite IH. reflexivity.
Qed.

Lemma count_all_weaker q s :
  (forall c, q c = true -> p c = true) ->
  Forall (fun c => q c = true) s -> count p s = List.length s.
Proof.
  intros Hq Hs. apply count_all. eapply Forall_impl; [|exact Hs]. exact Hq.
Qed.

Lemma count_cons c s :
  count p (c :: s) = ((if p c then 1 else 0) + count p s)%nat.
Proof. unfold count. simpl. destruct (p c); reflexivity. Qed.

Lemma count_split_on sep s :
  (list_sum (map (count p) (split_on sep s)) <= count p s)%nat.
Proof.
  induction s as [|c s IH]; [simpl; lia|].
  cbn [split_on]. rewrite count_cons. destruct (c =? sep).
  - cbn [map]. rewrite list_sum_cons. change (count p []) with O.
    destruct (p c); lia.
  - destruct (split_on sep s) as [|piece pieces]; cbn [map] in *;
      rewrite ?list_sum_cons in *; rewrite count_cons;
      [change (count p []) with O|]; destruct (p c); simpl in *; lia.
Qed.

Lemma count_sum_trim pieces :
  (list_sum (map (count p) (map trim pieces)) <= list_sum (map (count p) pieces))%nat.
Proof.
  induction pieces as [|x xs IH]; [simpl; lia|]. cbn [map].
  rewrite !list_sum_cons. pose proof (count_trim x). lia.
Qed.

Lemma count_sum_filter (q : str -> bool) pieces :
  (list_sum (map (count p) (filter q pieces)) <= list_sum (map (count p) pieces))%nat.
Proof.
  induction pieces as [|x xs IH]; [simpl; lia|]. cbn [filter].
  destruct (q x); cbn [map]; rewrite ?list_sum_cons; lia.
Qed.

Lemma count_sum_In l pieces :
  In l pieces -> (count p l <= list_sum (map (count p) pieces))%nat.
Proof.
  induction pieces as [|x xs IH]; [intros []|].
  intros [->|H]; cbn [map]; rewrite list_sum_cons; [lia|]. specialize (IH H). lia.
Qed.

Lemma count_join sep pieces :
  count p sep = O ->
  count p (join sep pieces) = list_sum (map (count p) pieces).
Proof.
  intros Hsep. induction pieces as [|x xs IH]; [reflexivity|].
  cbn [join]. destruct xs as [|y ys].
  - cbn [map]. rewrite list_sum_cons. simpl. lia.
  - rewrite !count_app, IH, Hsep. cbn [map]. rewrite !list_sum_cons. lia.
Qed.

Lemma count_lines_of text :
  (list_sum (map (count p) (lines_of text)) <= count p text)%nat.
Proof.
  unfold lines_of.
  etransitivity; [apply count_sum_filter|].
  etransitivity; [apply count_sum_trim|]. apply count_split_on.
Qed.
End CountFacts.

Section PipelineFacts.

Lemma meaningful_fold lines : forall acc,
  fold_left meaningful_step lines acc
  = acc ++ filter (fun l => negb (skipped l)) (map clean lines).
Proof.
  induction lines as [|line lines IH]; intros acc; simpl.
  - rewrite app_nil_r. reflexivity.
  - rewrite IH. unfold meaningful_step.
    destruct (skipped (clean line)); simpl; [reflexivity|].
    rewrite <- app_assoc. reflexivity.
Qed.

Lemma meaningfulLines_filter lines :
  meaningfulLines lines = filter (fun l => negb (skipped l)) (map clean lines).
Proof. apply meaningful_fold. Qed.

Lemma meaningful_line lines l :
  In l (meaningfulLines lines) ->
  (exists line, In line lines /\ l = clean line) /\
  (3 <= List.length l <= 50)%nat.
Proof.
  rewrite meaningfulLines_filter. intros H. apply filter_In in H.
  destruct H as [H Hs]. apply in_map_iff in H. destruct H as (line & <- & Hl).
  split; [eauto|].
  unfold skipped in Hs. apply negb_true_iff in Hs.
  repeat (apply orb_false_elim in Hs; destruct Hs as [Hs ?]).
  unfold length in *. apply Nat.ltb_ge in Hs.
  match goal with H : (50 <? _)%nat = false |- _ => apply Nat.ltb_ge in H end.
  lia.
Qed.

Lemma clean_kept line c : In c (clean line) -> kept c = true.
Proof.
  unfold clean, re_not_kept. rewrite replace_cls. intros H.
  apply filter_In in H. destruct H as [_ H]. unfold neg in H.
  apply negb_true_iff, negb_false_iff in H. exact H.
Qed.

Lemma meaningful_length text l :
  In l (meaningfulLines (lines_of text)) -> Z.of_nat (length l) < 2 ^ 53.
Proof.
  intros H. apply meaningful_line in H. destruct H as [_ H].
  unfold length. change (2 ^ 53) with 9007199254740992. lia.
Qed.

End PipelineFacts.

(** C3, as the code has it.  Every character of every meaningful line is a
    word character (an ASCII letter, a digit or the underscore), a white-space
    character, a period or a hyphen: what [/[^\w\s.-]/g] leaves. *)
Theorem meaningful_lines_kept_characters text l c :
  In l (meaningfulLines (lines_of text)) -> In c l ->
  word c || space c || only period c || only hyphen c = true.
Proof.
  intros Hl Hc. apply meaningful_line in Hl.
  destruct Hl as [(line & _ & ->) _]. exact (clean_kept _ _ Hc).
Qed.

Lemma meaningful_lines_kept_characters_witness :
  word underscore || space underscore || only period underscore
  || only hyphen underscore = true.
Proof.
  apply (@meaningful_lines_kept_characters (js "a_b") (js "a_b") underscore).
  - vm_compute. left. reflexivity.
  - vm_compute. right. left. reflexivity.
Defined.

(** The line "a_b" is meaningful and holds an underscore. *)
Lemma meaningful_lines_not_ascii_content :
  ~ (forall text l c,
       In l (meaningfulLines (lines_of text)) -> In c l -> ascii_content c = true).
Proof.
  intros H. specialize (H (js "a_b") (js "a_b") underscore).
  assert (E : ascii_content underscore = true).
  { apply H; vm_compute; [left|right; left]; reflexivity. }
  vm_compute in E. discriminate.
Qed.

(** C5.  Both entry points always fulfil and never reject: with the text
    the engine gave they return what the pipeline makes of it, with a
    rejected recognition they return the empty object; and for the empty
    text both return the empty object. *)
Theorem extraction_never_throws recognize imageData :
  (extractIDCardText recognize imageData =
     Fulfilled match recognize imageData with
               | Fulfilled text => idDataOfText text
               | Threw => emptyIDData
               end) /\
  (extractLicensePlate recognize imageData =
     Fulfilled match recognize imageData with
               | Fulfilled text => plateDataOfText text
               | Threw => emptyPlateData
               end) /\
  extractIDCardText (fun _ => Fulfilled []) imageData = Fulfilled emptyIDData /\
  extractLicensePlate (fun _ => Fulfilled []) imageData = Fulfilled emptyPlateData /\
  extractIDCardText (fun _ => Threw) imageData = Fulfilled emptyIDData /\
  extractLicensePlate (fun _ => Threw) imageData = Fulfilled emptyPlateData.
Proof.
  unfold extractIDCardText, extractLicensePlate, try_catch, bind.
  destruct (recognize imageData); repeat split; reflexivity.
Qed.

Lemma set_fields v d :
  address (set_name v d) = address d /\ city (set_name v d) = city d /\
  address (set_idNumber v d) = address d /\ city (set_idNumber v d) = city d.
Proof. repeat split. Qed.

Lemma scored_address_city ml :
  address (scored ml) = None /\ city (scored ml) = None.
Proof.
  unfold scored.
  destruct (truthy (fst (bestName ml))), (truthy (fst (bestId ml _))); split; reflexivity.
Qed.

Lemma fallback_address_city ml d :
  address (fallback ml d) = address d /\ city (fallback ml d) = city d.
Proof.
  unfold fallback.
  destruct (negb (present (name d)) || negb (present (idNumber d))); [|split; reflexivity].
  destruct (negb (present (name d))).
  - destruct (match_all re_name _) as [|first rest].
    + destruct (negb (present (idNumber d))); [|split; reflexivity].
      destruct (match_all re_id _); split; reflexivity.
    + destruct (negb (present (idNumber (set_name first d)))); [|split; reflexivity].
      destruct (match_all re_id _); split; reflexivity.
  - destruct (negb (present (idNumber d))); [|split; reflexivity].
    destruct (match_all re_id _); split; reflexivity.
Qed.

(** C9.  Whatever the engine does, [extractIDCardText] fulfils with a
    record whose [address] and [city] are unset. *)
Theorem address_city_never_set recognize imageData :
  exists data,
    extractIDCardText recognize imageData = Fulfilled data /\
    address data = None /\ city data = None.
Proof.
  unfold extractIDCardText, try_catch, bind.
  destruct (recognize imageData) as [text|].
  - exists (idDataOfText text). split; [reflexivity|]. unfold idDataOfText.
    destruct (fallback_address_city (meaningfulLines (lines_of text))
                (scored (meaningfulLines (lines_of text)))) as [-> ->].
    apply scored_address_city.
  - exists emptyIDData. repeat split.
Qed.

(** C2.  Each of the three scorers returns a number of the closed interval
    [0,1], hence never NaN, for every string of a length JavaScript allows
    (below 2^53), the empty string and strings without letters or digits
    included. *)
Theorem scores_in_unit_interval line :
  Z.of_nat (length line) < 2 ^ 53 ->
  in_unit (calculateNameScore line) = true /\
  in_unit (calculateIdScore line) = true /\
  in_unit (calculatePlateScore line) = true.
Proof.
  intros H. repeat split.
  - apply calculateNameScore_bounded, H.
  - apply calculateIdScore_bounded, H.
  - apply calculatePlateScore_bounded.
Qed.

Lemma scores_in_unit_interval_witness :
  in_unit (calculateNameScore (js "John Smith")) = true /\
  in_unit (calculateIdScore (js "John Smith")) = true /\
  in_unit (calculatePlateScore (js "John Smith")) = true.
Proof.
  apply (@scores_in_unit_interval (js "John Smith")). reflexivity.
Defined.

Section CandidateFacts.

Lemma gt_asym a b :
  nonneg a = true -> nonneg b = true -> gt a b = true -> gt b a = false.
Proof.
  intros Ha Hb H. destruct (gt b a) eqn:E; [|reflexivity].
  rewrite gt_below in H, E by assumption. revert H E.
  unfold below. destruct (key a) as (?&?&?), (key b) as (?&?&?). simpl. lia.
Qed.

Lemma gt_irrefl a : nonneg a = true -> gt a a = false.
Proof.
  intros Ha. destruct (gt a a) eqn:E; [|reflexivity].
  rewrite gt_below in E by assumption. revert E.
  unfold below. destruct (key a) as (?&?&?). simpl. lia.
Qed.

Lemma str_eqb_eq a : forall b, str_eqb a b = true <-> a = b.
Proof.
  induction a as [|x a IH]; intros [|y b]; simpl; split; try discriminate; auto.
  - intros H. apply andb_prop in H. destruct H as [H1 H2].
    apply Z.eqb_eq in H1. apply IH in H2. congruence.
  - intros [= -> ->]. rewrite Z.eqb_refl. apply IH. reflexivity.
Qed.

Lemma fold_left_ext (A B : Type) (f g : A -> B -> A) :
  (forall a b, f a b = g a b) ->
  forall l a, fold_left f l a = fold_left g l a.
Proof.
  intros H l. induction l as [|b l IH]; intros a; simpl; [reflexivity|].
  rewrite H. apply IH.
Qed.

Lemma other_than_neq n line : other_than n line = true <-> line <> n.
Proof.
  unfold other_than. rewrite negb_true_iff. split.
  - intros H E. apply str_eqb_eq in E. congruence.
  - intros H. destruct (str_eqb line n) eqn:E; [|reflexivity].
    apply str_eqb_eq in E. contradiction.
Qed.

Lemma bestName_chosen text :
  let ml := meaningfulLines (lines_of text) in
  chosen (fun _ => true) calculateNameScore n0_7 ml (bestName ml).
Proof.
  intros ml. unfold bestName.
  change name_step with (sel_step (fun _ => true) calculateNameScore n0_7).
  apply chosen_all; [reflexivity|].
  intros x Hx. apply calculateNameScore_bounded, (meaningful_length text), Hx.
Qed.

Lemma bestId_chosen text n :
  let ml := meaningfulLines (lines_of text) in
  chosen (other_than n) calculateIdScore n0_6 ml (bestId ml n).
Proof.
  intros ml. unfold bestId.
  rewrite (@fold_left_ext _ _ (id_step n) (sel_step (other_than n) calculateIdScore n0_6)).
  - apply chosen_all; [reflexivity|].
    intros x Hx. apply calculateIdScore_bounded, (meaningful_length text), Hx.
  - intros best line. unfold id_step, sel_step, other_than.
    destruct (str_eqb line n); reflexivity.
Qed.

Lemma chosen_truthy eligible score thr ls best :
  chosen eligible score thr ls best -> truthy (fst best) = true ->
  exists pre post,
    ls = pre ++ fst best :: post /\
    eligible (fst best) = true /\
    gt (score (fst best)) thr = true /\
    (forall x, In x pre -> eligible x = true ->
               gt (score (fst best)) (score x) = true) /\
    (forall x, In x post -> eligible x = true ->
               gt (score x) (score (fst best)) = false).
Proof.
  intros [[-> _]|(pre & post & H1 & H2 & _ & H3 & H4 & H5)] Ht.
  - discriminate.
  - exists pre, post. auto.
Qed.

Lemma upper_alnum_bounds c : upper_alnum c = true -> 48 <= c <= 90.
Proof.
  unfold upper_alnum, upper, digit, in_range. intros H.
  apply orb_prop in H. destruct H as [H|H]; apply andb_prop in H;
    destruct H as [H1 H2]; apply Z.leb_le in H1, H2; lia.
Qed.

Lemma upper_alnum_not_space c : upper_alnum c = true -> space c = false.
Proof.
  intros H. apply upper_alnum_bounds in H.
  unfold space, in_range, only.
  decide_ranges. reflexivity.
Qed.

Lemma filter_twice (p q : Z -> bool) s :
  (forall c, p c = true -> q c = false) ->
  filter (neg (neg p)) (filter (neg q) s) = filter p s.
Proof.
  intros H. induction s as [|c s IH]; [reflexivity|].
  cbn [filter]. change (neg q c) with (negb (q c)).
  destruct (q c) eqn:Eq; cbn [negb filter].
  - rewrite IH. destruct (p c) eqn:Ep; [|reflexivity].
    rewrite (H c Ep) in Eq. discriminate.
  - change (neg (neg p) c) with (negb (negb (p c))).
    rewrite negb_involutive, IH. reflexivity.
Qed.

Lemma filter_upper_alnum s :
  replace re_not_upper_alnum [] (replace re_spaces [] s) = filter upper_alnum s.
Proof.
  unfold re_not_upper_alnum, re_spaces. rewrite replace_plus, replace_cls.
  apply filter_twice, upper_alnum_not_space.
Qed.

End CandidateFacts.

Section FirstOfBest.

Lemma split_two_ways (A : Type) (pre post pre' post' : list A) a b :
  pre ++ a :: post = pre' ++ b :: post' ->
  (pre = pre' /\ a = b /\ post = post') \/
  (In a pre' /\ In b post) \/
  (In b pre /\ In a post').
Proof.
  revert pre'. induction pre as [|x pre IH]; intros [|y pre'] H; simpl in H.
  - injection H as E1 E2. subst. left. auto.
  - injection H as E1 E2. subst. right. left. split; [left; reflexivity|apply in_elt].
  - injection H as E1 E2. subst. right. right. split; [left; reflexivity|apply in_elt].
  - injection H as E1 H. subst y. destruct (IH _ H) as [(-> & -> & ->)|[[H1 H2]|[H1 H2]]].
    + left. auto.
    + right. left. split; [right; exact H1|exact H2].
    + right. right. split; [right; exact H1|exact H2].
Qed.

(** A loop that met an eligible line above the threshold holds a line. *)
Lemma chosen_some eligible score thr ls best x :
  chosen eligible score thr ls best ->
  In x ls -> eligible x = true -> gt (score x) thr = true ->
  In (fst best) ls /\ eligible (fst best) = true.
Proof.
  intros [[_ Hnone]|(pre & post & Hls & He & _)] Hx Hel Hgt.
  - rewrite (Hnone x Hx Hel) in Hgt. discriminate.
  - split; [rewrite Hls; apply in_elt|exact He].
Qed.

(** The line it holds is the only first of the best lines. *)
Lemma chosen_first eligible score thr ls best pre a post :
  chosen eligible score thr ls best ->
  ls = pre ++ a :: post ->
  eligible a = true -> gt (score a) thr = true ->
  (forall x, In x pre -> eligible x = true -> gt (score a) (score x) = true) ->
  (forall x, In x post -> eligible x = true -> gt (score x) (score a) = false) ->
  fst best = a.
Proof.
  intros [[_ Hnone]|(pre' & post' & Hls' & He & _ & _ & Hpre' & Hpost')]
         Hls Hel Hgt Hpre Hpost.
  - rewrite (Hnone a) in Hgt; [discriminate| |exact Hel].
    rewrite Hls. apply in_elt.
  - rewrite Hls in Hls'.
    destruct (split_two_ways _ _ _ _ _ _ Hls') as [(_ & E & _)|[[H1 H2]|[H1 H2]]].
    + symmetry. exact E.
    + pose proof (Hpre' a H1 Hel) as Hhi.
      rewrite (Hpost _ H2 He) in Hhi. discriminate.
    + pose proof (Hpre _ H1 He) as Hhi.
      rewrite (Hpost' a H2 Hel) in Hhi. discriminate.
Qed.

Lemma bestName_chosen_lines ls :
  (forall x, In x ls -> Z.of_nat (length x) < 2 ^ 53) ->
  chosen (fun _ => true) calculateNameScore n0_7 ls (bestName ls).
Proof.
  intros Hlen. unfold bestName.
  change name_step with (sel_step (fun _ => true) calculateNameScore n0_7).
  apply chosen_all; [reflexivity|].
  intros x Hx. apply calculateNameScore_bounded, Hlen, Hx.
Qed.

Lemma bestId_chosen_lines ls n :
  (forall x, In x ls -> Z.of_nat (length x) < 2 ^ 53) ->
  chosen (other_than n) calculateIdScore n0_6 ls (bestId ls n).
Proof.
  intros Hlen. unfold bestId.
  rewrite (@fold_left_ext _ _ (id_step n) (sel_step (other_than n) calculateIdScore n0_6)).
  - apply chosen_all; [reflexivity|].
    intros x Hx. apply calculateIdScore_bounded, Hlen, Hx.
  - intros best line. unfold id_step, sel_step, other_than.
    destruct (str_eqb line n); reflexivity.
Qed.

Lemma meaningful_truthy text l :
  In l (meaningfulLines (lines_of text)) -> truthy l = true.
Proof.
  intros H. apply meaningful_line in H. destruct H as [_ H].
  destruct l; [simpl in H; lia|reflexivity].
Qed.

Lemma first_best_name_selected ls a :
  (forall x, In x ls -> Z.of_nat (length x) < 2 ^ 53) ->
  first_best_name ls a -> fst (bestName ls) = a.
Proof.
  intros Hlen (pre & post & Hls & Hgt & Hpre & Hpost).
  eapply chosen_first;
    [apply bestName_chosen_lines, Hlen|exact Hls|reflexivity|exact Hgt| |]; auto.
Qed.

Lemma first_best_id_selected ls n a :
  (forall x, In x ls -> Z.of_nat (length x) < 2 ^ 53) ->
  first_best_id n ls a -> fst (bestId ls n) = a.
Proof.
  intros Hlen (pre & post & Hls & Hn & Hgt & Hpre & Hpost).
  eapply chosen_first;
    [apply bestId_chosen_lines, Hlen|exact Hls| |exact Hgt| |].
  - apply other_than_neq, Hn.
  - intros x Hx Hel. apply Hpre; [exact Hx|apply other_than_neq, Hel].
  - intros x Hx Hel. apply Hpost; [exact Hx|apply other_than_neq, Hel].
Qed.

(** The two tied lines in the other order. *)
Lemma swapped_In (A : Type) (pre mid post : list A) a b x :
  In x (pre ++ b :: mid ++ a :: post) -> In x (pre ++ a :: mid ++ b :: post).
Proof.
  intros H. apply in_app_or in H. apply in_or_app.
  destruct H as [H|[<-|H]]; [left; exact H| |].
  - right. right. apply in_elt.
  - apply in_app_or in H. destruct H as [H|[<-|H]].
    + right. right. apply in_or_app. left. exact H.
    + right. left. reflexivity.
    + right. right. apply in_or_app. right. right. exact H.
Qed.

End FirstOfBest.

(** C8, as the code has it.  Line order breaks scoring ties: each loop
    keeps the first of the lines of greatest score.  When some meaningful
    line scores above 0.7 a name candidate is selected, and a line is the
    name candidate exactly when it is the first of the best lines; the ID
    candidate likewise, with 0.6, among the lines other than the name
    candidate.  When two tied lines attain the greatest score and every line
    before the first of them scores strictly lower, the loop selects the
    first of the two, and over the sequence with the two swapped it selects
    the other (for the ID number, the name candidate being the same in both
    orders). *)
Theorem ties_keep_first_line text :
  let ml := meaningfulLines (lines_of text) in
  let n := fst (bestName ml) in
  let i := fst (bestId ml n) in
  ((exists x, In x ml /\ gt (calculateNameScore x) n0_7 = true) ->
   truthy n = true) /\
  (forall a, first_best_name ml a <-> truthy n = true /\ n = a) /\
  ((exists x, In x ml /\ x <> n /\ gt (calculateIdScore x) n0_6 = true) ->
   truthy i = true) /\
  (forall a, first_best_id n ml a <-> truthy i = true /\ i = a) /\
  (forall pre a mid b post,
     ml = pre ++ a :: mid ++ b :: post ->
     calculateNameScore a = calculateNameScore b ->
     gt (calculateNameScore a) n0_7 = true ->
     (forall x, In x pre ->
                gt (calculateNameScore a) (calculateNameScore x) = true) ->
     (forall x, In x (mid ++ post) ->
                gt (calculateNameScore x) (calculateNameScore a) = false) ->
     n = a /\ fst (bestName (pre ++ b :: mid ++ a :: post)) = b) /\
  (forall pre a mid b post,
     let ml' := pre ++ b :: mid ++ a :: post in
     ml = pre ++ a :: mid ++ b :: post ->
     fst (bestName ml') = n ->
     a <> n -> b <> n ->
     calculateIdScore a = calculateIdScore b ->
     gt (calculateIdScore a) n0_6 = true ->
     (forall x, In x pre -> x <> n ->
                gt (calculateIdScore a) (calculateIdScore x) = true) ->
     (forall x, In x (mid ++ post) -> x <> n ->
                gt (calculateIdScore x) (calculateIdScore a) = false) ->
     i = a /\ fst (bestId ml' (fst (bestName ml'))) = b).
Proof.
  intros ml n i.
  assert (Hlen : forall x, In x ml -> Z.of_nat (length x) < 2 ^ 53).
  { intros x Hx. apply (meaningful_length text), Hx. }
  pose proof (bestName_chosen text) as Hcn. cbv zeta in Hcn. fold ml in Hcn.
  pose proof (bestId_chosen text n) as Hci. cbv zeta in Hci. fold ml in Hci.
  split; [|split; [|split; [|split; [|split]]]].
  - intros (x & Hx & Hgt).
    apply (meaningful_truthy text).
    eapply chosen_some; [exact Hcn|exact Hx|reflexivity|exact Hgt].
  - intros a. split.
    + intros Hfb. pose proof (first_best_name_selected Hlen Hfb) as E.
      fold n in E. split; [|exact E].
      rewrite E. destruct Hfb as (pre & post & Hls & _).
      apply (meaningful_truthy text). fold ml. rewrite Hls. apply in_elt.
    + intros [Ht <-].
      destruct (chosen_truthy Hcn Ht) as (pre & post & H1 & _ & H2 & H3 & H4).
      exists pre, post. repeat split; auto.
  - intros (x & Hx & Hn & Hgt).
    apply (meaningful_truthy text).
    eapply chosen_some; [exact Hci|exact Hx|apply other_than_neq, Hn|exact Hgt].
  - intros a. split.
    + intros Hfb. pose proof (first_best_id_selected Hlen Hfb) as E.
      fold i in E. split; [|exact E].
      rewrite E. destruct Hfb as (pre & post & Hls & _).
      apply (meaningful_truthy text). fold ml. rewrite Hls. apply in_elt.
    + intros [Ht <-].
      destruct (chosen_truthy Hci Ht) as (pre & post & H1 & H0 & H2 & H3 & H4).
      exists pre, post. split; [exact H1|]. split; [apply other_than_neq, H0|].
      split; [exact H2|]. split.
      * intros x Hx Hn. apply H3; [assumption|]. apply other_than_neq, Hn.
      * intros x Hx Hn. apply H4; [assumption|]. apply other_than_neq, Hn.
  - intros pre a mid b post Hls Htie Hgt Hpre Hrest.
    assert (Ha : nonneg (calculateNameScore a) = true).
    { apply calculateNameScore_bounded, Hlen. rewrite Hls. apply in_elt. }
    split.
    + apply (first_best_name_selected Hlen).
      exists pre, (mid ++ b :: post). repeat split; auto.
      intros x Hx. apply in_app_or in Hx. destruct Hx as [Hx|[<-|Hx]].
      * apply Hrest, in_or_app. left. exact Hx.
      * rewrite <- Htie. apply gt_irrefl, Ha.
      * apply Hrest, in_or_app. right. exact Hx.
    + apply first_best_name_selected.
      { intros x Hx. apply Hlen. rewrite Hls. apply swapped_In, Hx. }
      exists pre, (mid ++ a :: post). rewrite <- Htie. repeat split; auto.
      intros x Hx. apply in_app_or in Hx. destruct Hx as [Hx|[<-|Hx]].
      * apply Hrest, in_or_app. left. exact Hx.
      * apply gt_irrefl, Ha.
      * apply Hrest, in_or_app. right. exact Hx.
  - intros pre a mid b post ml' Hls Hname Han Hbn Htie Hgt Hpre Hrest.
    assert (Ha : nonneg (calculateIdScore a) = true).
    { apply calculateIdScore_bounded, Hlen. rewrite Hls. apply in_elt. }
    split.
    + apply (first_best_id_selected Hlen).
      exists pre, (mid ++ b :: post). repeat split; auto.
      intros x Hx Hn. apply in_app_or in Hx. destruct Hx as [Hx|[<-|Hx]].
      * apply Hrest; [apply in_or_app; left; exact Hx|exact Hn].
      * rewrite <- Htie. apply gt_irrefl, Ha.
      * apply Hrest; [apply in_or_app; right; exact Hx|exact Hn].
    + rewrite Hname. apply first_best_id_selected.
      { intros x Hx. apply Hlen. rewrite Hls. apply swapped_In, Hx. }
      exists pre, (mid ++ a :: post). rewrite <- Htie. repeat split; auto.
      intros x Hx Hn. apply in_app_or in Hx. destruct Hx as [Hx|[<-|Hx]].
      * apply Hrest; [apply in_or_app; left; exact Hx|exact Hn].
      * apply gt_irrefl, Ha.
      * apply Hrest; [apply in_or_app; right; exact Hx|exact Hn].
Qed.

Lemma ties_keep_first_line_witness :
  (fst (bestName (meaningfulLines (lines_of (js "John Smith" ++ [10] ++ js "Mary Jones"))))
   = js "John Smith" /\
   fst (bestName ([] ++ js "Mary Jones" :: [] ++ js "John Smith" :: []))
   = js "Mary Jones") /\
  first_best_name
    (meaningfulLines (lines_of (js "Ann Lee" ++ [10] ++ js "John Smith")))
    (js "Ann Lee") /\
  fst (bestId ([js "John Smith"] ++ js "Z9Y8X7W6" :: [] ++ js "A1B2C3D4" :: [])
         (fst (bestName ([js "John Smith"] ++ js "Z9Y8X7W6" :: [] ++ js "A1B2C3D4" :: []))))
  = js "Z9Y8X7W6".
Proof.
  split; [|split].
  - apply (proj1 (proj2 (proj2 (proj2 (proj2
             (ties_keep_first_line (js "John Smith" ++ [10] ++ js "Mary Jones"))))))
             [] (js "John Smith") [] (js "Mary Jones") []).
    + vm_compute. reflexivity.
    + vm_compute. reflexivity.
    + vm_compute. reflexivity.
    + intros x [].
    + intros x [].
  - apply (proj1 (proj2 (ties_keep_first_line (js "Ann Lee" ++ [10] ++ js "John Smith")))).
    split; vm_compute; reflexivity.
  - apply (proj2 (proj2 (proj2 (proj2 (proj2
             (ties_keep_first_line
                (js "John Smith" ++ [10] ++ js "A1B2C3D4" ++ [10] ++ js "Z9Y8X7W6"))))))
             [js "John Smith"] (js "A1B2C3D4") [] (js "Z9Y8X7W6") []).
    + vm_compute. reflexivity.
    + vm_compute. reflexivity.
    + vm_compute. discriminate.
    + vm_compute. discriminate.
    + vm_compute. reflexivity.
    + vm_compute. reflexivity.
    + intros x [<-|[]] Hn. exfalso. apply Hn. vm_compute. reflexivity.
    + intros x [].
Defined.

(** "John Smith" and "Mary Jones" score the same; whichever comes first is
    the name. *)
Lemma tie_order_matters :
  ~ (forall a b : str,
       a <> b ->
       calculateNameScore a = calculateNameScore b ->
       gt (calculateNameScore a) n0_7 = true ->
       name (idDataOfText (a ++ [10] ++ b)) = name (idDataOfText (b ++ [10] ++ a))).
Proof.
  intros H.
  specialize (H (js "John Smith") (js "Mary Jones")).
  assert (E : name (idDataOfText (js "John Smith" ++ [10] ++ js "Mary Jones"))
            = name (idDataOfText (js "Mary Jones" ++ [10] ++ js "John Smith"))).
  { apply H; [vm_compute; discriminate | vm_compute; reflexivity | vm_compute; reflexivity]. }
  vm_compute in E. discriminate.
Qed.

(** C4, as the code has it.  When scoring populates [idNumber], the value
    comes from a meaningful line other than the name candidate whose ID score
    is above 0.6 and exceeded by no other such line, and it is that line with
    every character outside A-Z and 0-9 removed. *)
Theorem id_number_reported text v :
  let ml := meaningfulLines (lines_of text) in
  let n := fst (bestName ml) in
  idNumber (scored ml) = Some v ->
  exists cand,
    In cand ml /\ cand <> n /\
    gt (calculateIdScore cand) n0_6 = true /\
    (forall x, In x ml -> x <> n ->
               gt (calculateIdScore x) (calculateIdScore cand) = false) /\
    v = filter upper_alnum cand.
Proof.
  intros ml n H. unfold scored in H. fold ml in H. fold n in H.
  destruct (truthy (fst (bestId ml n))) eqn:Ht.
  2:{ destruct (truthy n); discriminate. }
  assert (Hv : v = filter upper_alnum (fst (bestId ml n))).
  { rewrite <- filter_upper_alnum. destruct (truthy n); simpl in H; congruence. }
  destruct (chosen_truthy (bestId_chosen text n) Ht)
    as (pre & post & H1 & H0 & H2 & H3 & H4).
  fold ml in H1, H2, H3, H4, H0.
  set (i := fst (bestId ml n)) in *.
  assert (Hnn : forall x, In x ml -> nonneg (calculateIdScore x) = true).
  { intros x Hx. apply calculateIdScore_bounded, (meaningful_length text), Hx. }
  assert (Hi : In i ml) by (rewrite H1; apply in_or_app; right; left; reflexivity).
  exists i. repeat split; auto.
  - apply other_than_neq, H0.
  - intros x Hx Hn. rewrite H1 in Hx.
    apply in_app_or in Hx. destruct Hx as [Hx|[<-|Hx]].
    + apply gt_asym; [apply Hnn, Hi| |apply H3; [assumption|apply other_than_neq, Hn]].
      apply Hnn. rewrite H1. apply in_or_app. auto.
    + apply gt_irrefl, Hnn, Hi.
    + apply H4; [assumption|apply other_than_neq, Hn].
Qed.

Lemma id_number_reported_witness :
  exists cand,
    In cand (meaningfulLines (lines_of (js "ab12cd34"))) /\
    js "1234" = filter upper_alnum cand.
Proof.
  destruct (@id_number_reported (js "ab12cd34") (js "1234") eq_refl)
    as (cand & H1 & _ & _ & _ & H2).
  exists cand. split; [exact H1 | exact H2].
Defined.

(** The line "ab12cd34" is the ID candidate and is reported as "1234". *)
Lemma id_number_drops_lowercase :
  ~ (forall text v,
       idNumber (scored (meaningfulLines (lines_of text))) = Some v ->
       exists cand,
         In cand (meaningfulLines (lines_of text)) /\ v = filter alnum cand).
Proof.
  intros H.
  destruct (H (js "ab12cd34") (js "1234") eq_refl) as (cand & Hin & Hv).
  vm_compute in Hin. destruct Hin as [<-|[]].
  vm_compute in Hv. discriminate.
Qed.

Section FallbackFacts.

Lemma lower_bounds c : lower c = true -> 97 <= c <= 122.
Proof.
  unfold lower, in_range. intros H. apply andb_prop in H.
  destruct H as [H1 H2]. apply Z.leb_le in H1, H2. lia.
Qed.

Lemma lower_not_upper_digit_space c :
  lower c = true -> upper_digit_space c = false.
Proof.
  intros H. apply lower_bounds in H.
  unfold upper_digit_space, upper, digit, in_range, only. decide_ranges. reflexivity.
Qed.

Lemma lower_not_plate_kept c : lower c = true -> plate_kept c = false.
Proof.
  intros H. apply lower_bounds in H.
  unfold plate_kept, upper, digit, space, in_range, only, hyphen.
  decide_ranges. reflexivity.
Qed.

Lemma den_name_lower w :
  den re_name w -> exists c, In c w /\ lower c = true.
Proof.
  unfold re_name, plus. cbn [seq den].
  intros (u0 & r0 & -> & -> & u1 & r1 & -> & (c1 & -> & _) & u2 & r2 & -> & (Hf & Hl & _) & _).
  destruct u2 as [|c u2]; [simpl in Hl; lia|].
  exists c. split.
  - simpl. right. left. reflexivity.
  - inversion Hf; assumption.
Qed.

Lemma In_join c sep ls :
  In c (join sep ls) -> In c sep \/ exists l, In l ls /\ In c l.
Proof.
  induction ls as [|x xs IH]; [intros []|].
  cbn [join]. destruct xs as [|y ys].
  - intros H. right. exists x. split; [left; reflexivity|assumption].
  - intros H. apply in_app_or in H. destruct H as [H|H].
    + right. exists x. split; [left; reflexivity|assumption].
    + apply in_app_or in H. destruct H as [H|H]; [left; assumption|].
      destruct (IH H) as [H'|(l & Hl & Hc)]; [left; assumption|].
      right. exists l. split; [right; assumption|assumption].
Qed.

Lemma fallback_name ml d :
  name (fallback ml d) =
  if present (name d) then name d
  else match match_all re_name (join (js " ") ml) with
       | first :: _ => Some first
       | [] => name d
       end.
Proof.
  unfold fallback.
  destruct (present (name d)) eqn:Hn; cbn [negb orb].
  - destruct (negb (present (idNumber d))); [|reflexivity].
    destruct (match_all re_id _); reflexivity.
  - destruct (match_all re_name _) as [|first rest].
    + destruct (negb (present (idNumber d))); [|reflexivity].
      destruct (match_all re_id _); reflexivity.
    + destruct (negb (present (idNumber (set_name first d)))); [|reflexivity].
      destruct (match_all re_id _); reflexivity.
Qed.

End FallbackFacts.

(** C10.  A name that comes from the fallback matcher holds a lower-case
    letter, so it never consists of upper-case letters, digits and spaces
    alone; and when every meaningful line consists of those alone, the
    fallback leaves the name as scoring left it. *)
Theorem fallback_name_has_lowercase text :
  let ml := meaningfulLines (lines_of text) in
  (forall v,
     name (scored ml) = None -> name (idDataOfText text) = Some v ->
     (exists c, In c v /\ lower c = true) /\ forallb upper_digit_space v = false) /\
  ((forall l c, In l ml -> In c l -> upper_digit_space c = true) ->
   name (idDataOfText text) = name (scored ml)).
Proof.
  intros ml. unfold idDataOfText. fold ml. rewrite fallback_name. split.
  - intros v Hs. rewrite Hs. cbn [present].
    destruct (match_all re_name (join (js " ") ml)) as [|first rest] eqn:E;
      [discriminate|].
    intros [= <-].
    destruct (@match_all_sound re_name (join (js " ") ml) first) as [Hd _];
      [rewrite E; left; reflexivity|].
    destruct (den_name_lower Hd) as (c & Hc & Hl).
    split; [eauto|].
    destruct (forallb upper_digit_space first) eqn:Ef; [|reflexivity].
    rewrite forallb_forall in Ef. specialize (Ef c Hc).
    rewrite (lower_not_upper_digit_space c Hl) in Ef. discriminate.
  - intros Hall. destruct (present (name (scored ml))); [reflexivity|].
    destruct (match_all re_name (join (js " ") ml)) as [|first rest] eqn:E;
      [reflexivity|].
    exfalso.
    destruct (@match_all_sound re_name (join (js " ") ml) first)
      as (Hd & a & b & Hab); [rewrite E; left; reflexivity|].
    destruct (den_name_lower Hd) as (c & Hc & Hl).
    assert (Hj : In c (join (js " ") ml)).
    { rewrite Hab. apply in_or_app. right. apply in_or_app. left. exact Hc. }
    apply In_join in Hj. destruct Hj as [Hj|(l & Hl' & Hc')].
    + destruct Hj as [<-|[]]. vm_compute in Hl. discriminate.
    + specialize (Hall l c Hl' Hc').
      rewrite (lower_not_upper_digit_space c Hl) in Hall. discriminate.
Qed.

Lemma fallback_name_has_lowercase_witness :
  ((exists c, In c (js "Abc Def") /\ lower c = true) /\
   forallb upper_digit_space (js "Abc Def") = false) /\
  name (idDataOfText (js "ID 12")) = name (scored (meaningfulLines (lines_of (js "ID 12")))).
Proof.
  split.
  - apply (proj1 (fallback_name_has_lowercase (js "Abc" ++ [10] ++ js "Def"))
             (js "Abc Def")); reflexivity.
  - apply (proj2 (fallback_name_has_lowercase (js "ID 12"))).
    intros l c Hl Hc. vm_compute in Hl. destruct Hl as [<-|[]].
    vm_compute in Hc.
    repeat (destruct Hc as [<-|Hc]; [reflexivity|]). destruct Hc.
Defined.

Section PlateFacts.

Lemma upper_is_upper_alnum c : upper c = true -> upper_alnum c = true.
Proof. unfold upper_alnum. intros ->. reflexivity. Qed.

Lemma digit_is_upper_alnum c : digit c = true -> upper_alnum c = true.
Proof. unfold upper_alnum. intros ->. apply orb_true_r. Qed.

Lemma count_upper s :
  Forall (fun c => upper c = true) s -> count upper_alnum s = List.length s.
Proof. apply count_all_weaker, upper_is_upper_alnum. Qed.

Lemma count_digit s :
  Forall (fun c => digit c = true) s -> count upper_alnum s = List.length s.
Proof. apply count_all_weaker, digit_is_upper_alnum. Qed.

Lemma plate_pattern_count pattern m :
  In pattern platePatterns -> den pattern m -> (3 <= count upper_alnum m)%nat.
Proof.
  unfold platePatterns, between, maybe.
  intros [<-|[<-|[<-|[<-|[<-|[]]]]]]; cbn [seq den].
  - intros (u0 & r0 & -> & -> & u1 & r1 & -> & (H1 & L1 & _) & u2 & r2 & -> & _
            & u3 & r3 & -> & (H3 & L3 & _) & _).
    rewrite !count_app, (count_upper H1), (count_digit H3). simpl. lia.
  - intros (u0 & r0 & -> & -> & u1 & r1 & -> & (H1 & L1 & _) & u2 & r2 & -> & _
            & u3 & r3 & -> & (H3 & L3 & _) & _).
    rewrite !count_app, (count_digit H1), (count_upper H3). simpl. lia.
  - intros (u0 & r0 & -> & -> & u1 & r1 & -> & (H1 & L1 & _) & u2 & r2 & ->
            & (H2 & L2 & _) & _).
    rewrite !count_app, (count_upper H1), (count_digit H2). simpl. lia.
  - intros (u0 & r0 & -> & -> & u1 & r1 & -> & (H1 & L1 & _) & u2 & r2 & ->
            & (H2 & L2 & _) & _).
    rewrite !count_app, (count_digit H1), (count_upper H2). simpl. lia.
  - intros (u0 & r0 & -> & -> & u1 & r1 & -> & (H1 & L1 & _) & _).
    rewrite !count_app, (@count_all upper_alnum _ H1). simpl. lia.
Qed.

Lemma toUpperCase_fixed s :
  (forall c, In c s -> lower c = false) -> toUpperCase s = s.
Proof.
  induction s as [|c s IH]; intros H; [reflexivity|].
  unfold toUpperCase in *. cbn [map]. rewrite (H c) by (left; reflexivity).
  rewrite IH; [reflexivity|]. intros d Hd. apply H. right. exact Hd.
Qed.

Lemma length_toUpperCase s : List.length (toUpperCase s) = List.length s.
Proof. apply length_map. Qed.

Lemma count_cleanPlateLine line :
  (count upper_alnum (cleanPlateLine line) <= count upper_alnum line)%nat.
Proof.
  unfold cleanPlateLine, re_not_plate. rewrite replace_cls.
  etransitivity; [apply count_trim|].
  rewrite toUpperCase_fixed; [apply count_filter|].
  intros c Hc. apply filter_In in Hc. destruct Hc as [_ Hc].
  unfold neg in Hc. apply negb_true_iff, negb_false_iff in Hc.
  destruct (lower c) eqn:El; [|reflexivity].
  rewrite (lower_not_plate_kept c El) in Hc. discriminate.
Qed.

Lemma no_plate_match pattern cleanLine :
  In pattern platePatterns -> (count upper_alnum cleanLine < 3)%nat ->
  match_all pattern cleanLine = [].
Proof.
  intros Hp Hc. destruct (match_all pattern cleanLine) as [|m ms] eqn:E; [reflexivity|].
  exfalso.
  destruct (@match_all_sound pattern cleanLine m) as (Hd & a & b & Hab);
    [rewrite E; left; reflexivity|].
  pose proof (plate_pattern_count m Hp Hd) as H3.
  rewrite Hab, !count_app in Hc. lia.
Qed.

Lemma patterns_fold cleanLine : forall patterns best,
  (forall pattern, In pattern patterns -> match_all pattern cleanLine = []) ->
  fold_left (pattern_step cleanLine) patterns best = best.
Proof.
  induction patterns as [|pattern patterns IH]; intros best H; [reflexivity|].
  cbn [fold_left]. unfold pattern_step at 2. rewrite (H pattern) by (left; reflexivity).
  cbn [fold_left]. apply IH. intros q Hq. apply H. right. exact Hq.
Qed.

Lemma line_step_none best line :
  (count upper_alnum line < 3)%nat -> line_step best line = best.
Proof.
  intros H. unfold line_step.
  destruct (length (cleanPlateLine line) <? 3)%nat; [reflexivity|].
  apply patterns_fold. intros pattern Hp. apply no_plate_match; [exact Hp|].
  pose proof (count_cleanPlateLine line). lia.
Qed.

Lemma bestPlate_none lines : forall best,
  (forall line, In line lines -> (count upper_alnum line < 3)%nat) ->
  fold_left line_step lines best = best.
Proof.
  induction lines as [|line lines IH]; intros best H; [reflexivity|].
  cbn [fold_left]. rewrite line_step_none by (apply H; left; reflexivity).
  apply IH. intros l Hl. apply H. right. exact Hl.
Qed.

End PlateFacts.

(** C6, as the code has it.  A text that holds fewer than three characters
    of A-Z and 0-9 in all yields the empty plate object. *)
Theorem few_plate_characters_no_plate text :
  (count upper_alnum text < 3)%nat -> plateDataOfText text = emptyPlateData.
Proof.
  intros H. unfold plateDataOfText, plateCandidate, bestPlate.
  rewrite bestPlate_none.
  - cbn [fst]. unfold wholeTextPlate. cbn [truthy negb].
    set (allText := toUpperCase _).
    assert (Hlen : (length allText < 4)%nat).
    { unfold allText, length, re_not_upper_alnum.
      rewrite length_toUpperCase, replace_cls.
      assert (E : forall s, filter (neg (neg upper_alnum)) s = filter upper_alnum s).
      { intros s. apply filter_ext. intros c. unfold neg. apply negb_involutive. }
      rewrite E. fold (count upper_alnum (join (js " ") (lines_of text))).
      rewrite count_join by reflexivity.
      pose proof (count_lines_of upper_alnum text). lia. }
    destruct (Nat.leb_spec 4 (length allText)); [lia|]. reflexivity.
  - intros line Hl.
    pose proof (count_sum_In upper_alnum line (lines_of text) Hl).
    pose proof (count_lines_of upper_alnum text). lia.
Qed.

Lemma few_plate_characters_no_plate_witness :
  plateDataOfText (js "abc 12") = emptyPlateData.
Proof.
  apply few_plate_characters_no_plate. vm_compute. lia.
Defined.

(** "AB 12" has no three letters or digits in a row and yields the plate
    "AB12". *)
Lemma short_runs_still_give_plate :
  ~ (forall text,
       has_run alnum 3 text = false -> plateDataOfText text = emptyPlateData).
Proof.
  intros H. specialize (H (js "AB 12") eq_refl). vm_compute in H. discriminate.
Qed.

Section NameFacts.

Lemma replace_from_plus_keeps p by_ c rest : forall prev skip,
  (skip <= run_length p rest)%nat -> In c rest -> p c = false ->
  In c (replace_from (plus p) by_ prev rest skip).
Proof.
  induction rest as [|d rest' IH]; intros prev skip Hs Hc Hp; [destruct Hc|].
  cbn [replace_from]. destruct skip as [|k].
  - rewrite match_here_plus. simpl in Hs |- *.
    destruct (p d) eqn:E.
    + apply in_or_app. right. simpl.
      destruct Hc as [->|Hc]; [congruence|]. apply IH; [lia|assumption|assumption].
    + destruct Hc as [->|Hc]; [left; reflexivity|].
      right. apply IH; [lia|assumption|assumption].
  - simpl in Hs. destruct (p d) eqn:E; [|lia].
    destruct Hc as [->|Hc]; [congruence|]. apply IH; [lia|assumption|assumption].
Qed.

Lemma dropWhile_keeps p c s : In c s -> p c = false -> In c (dropWhile p s).
Proof.
  induction s as [|d s IH]; [intros []|].
  intros Hc Hp. simpl. destruct (p d) eqn:E; [|exact Hc].
  destruct Hc as [->|Hc]; [congruence|]. apply IH; assumption.
Qed.

Lemma trim_keeps c s : In c s -> space c = false -> In c (trim s).
Proof.
  intros Hc Hp. unfold trim. apply in_rev. rewrite rev_involutive.
  apply dropWhile_keeps; [|exact Hp]. apply in_rev. rewrite rev_involutive.
  apply dropWhile_keeps; assumption.
Qed.

(** The name as reported: runs of white space made one space, trimmed. *)
Lemma reported_name_truthy n :
  gt (calculateNameScore n) n0_7 = true ->
  truthy (trim (replace re_spaces (js " ") n)) = true.
Proof.
  intros H. unfold calculateNameScore in H.
  destruct (test re_letter n) eqn:Hl; [|vm_compute in H; discriminate].
  clear H. unfold re_letter in Hl. rewrite test_cls in Hl.
  apply existsb_exists in Hl. destruct Hl as (c & Hc & Hl).
  apply letter_not_space in Hl.
  assert (Hin : In c (trim (replace re_spaces (js " ") n))).
  { apply trim_keeps; [|exact Hl]. unfold replace, re_spaces.
    apply replace_from_plus_keeps; [lia|exact Hc|exact Hl]. }
  destruct (trim _); [destruct Hin|reflexivity].
Qed.

Lemma scored_name ml :
  name (scored ml) =
  if truthy (fst (bestName ml))
  then Some (trim (replace re_spaces (js " ") (fst (bestName ml))))
  else None.
Proof.
  unfold scored.
  destruct (truthy (fst (bestName ml))), (truthy (fst (bestId ml _))); reflexivity.
Qed.

Lemma fallback_idNumber ml d :
  idNumber d = None ->
  idNumber (fallback ml d) = hd_error (match_all re_id (join (js " ") ml)).
Proof.
  intros H. unfold fallback. rewrite H. cbn [present negb]. rewrite orb_true_r.
  destruct (negb (present (name d))).
  - destruct (match_all re_name _) as [|first rest]; cbn [idNumber set_name];
      rewrite H; cbn [present negb];
      destruct (match_all re_id _); cbn [idNumber set_idNumber hd_error]; auto.
  - rewrite H. cbn [present negb].
    destruct (match_all re_id _); cbn [idNumber set_idNumber hd_error]; auto.
Qed.

End NameFacts.

(** C1, as the code has it.  The scoring loop for the ID number skips every
    line equal to the name candidate, so its candidate is never the name
    line, and the name candidate is what [name] reports.  When no meaningful
    line other than the name candidate has an ID score above 0.6, scoring
    leaves [idNumber] unset, and the field is then the first match, if any,
    of the fallback pattern over the joined meaningful lines, the name line
    included.  When some other line has an ID score above 0.6, scoring sets
    [idNumber] from a meaningful line that is not the name candidate. *)
Theorem name_line_skipped_by_id_scoring text :
  let ml := meaningfulLines (lines_of text) in
  let n := fst (bestName ml) in
  let i := fst (bestId ml n) in
  (truthy n = true ->
   i <> n /\
   name (idDataOfText text) = Some (trim (replace re_spaces (js " ") n))) /\
  ((forall l, In l ml -> l <> n -> gt (calculateIdScore l) n0_6 = false) ->
   idNumber (scored ml) = None /\
   idNumber (idDataOfText text) = hd_error (match_all re_id (join (js " ") ml))) /\
  ((exists l, In l ml /\ l <> n /\ gt (calculateIdScore l) n0_6 = true) ->
   In i ml /\ i <> n /\
   idNumber (scored ml) = Some (filter upper_alnum i)).
Proof.
  intros ml n i.
  pose proof (bestId_chosen text n) as Hc. cbv zeta in Hc. fold ml in Hc.
  split; [|split].
  - intros Ht. split.
    + destruct Hc as [[Hb _]|(pre & post & _ & He & _)].
      * unfold i. rewrite Hb. cbn [fst]. intros E. rewrite <- E in Ht. discriminate.
      * apply other_than_neq, He.
    + destruct (chosen_truthy (bestName_chosen text) Ht) as (_ & _ & _ & _ & Hs & _).
      unfold idDataOfText. fold ml. rewrite fallback_name, scored_name. fold n.
      rewrite Ht. cbn [present]. rewrite (reported_name_truthy n Hs). reflexivity.
  - intros Hweak.
    assert (Hi : i = []).
    { destruct Hc as [[Hb _]|(pre & post & Hls & He & _ & Hgt & _)].
      - unfold i. rewrite Hb. reflexivity.
      - exfalso. apply other_than_neq in He.
        rewrite Hweak in Hgt; [discriminate| |exact He].
        pose proof (in_elt (fst (bestId ml n)) pre post) as Hin.
        rewrite <- Hls in Hin. exact Hin. }
    assert (Hs : idNumber (scored ml) = None).
    { unfold scored. fold n. fold i. rewrite Hi. cbn [truthy].
      destruct (truthy n); reflexivity. }
    split; [exact Hs|]. unfold idDataOfText. fold ml.
    apply fallback_idNumber, Hs.
  - intros (l & Hl & Hn & Hgt).
    assert (Hsel : In i ml /\ other_than n i = true).
    { eapply chosen_some; [exact Hc|exact Hl|apply other_than_neq, Hn|exact Hgt]. }
    destruct Hsel as [Hin He].
    split; [exact Hin|]. split; [apply other_than_neq, He|].
    unfold scored. fold n. fold i.
    rewrite (meaningful_truthy text i Hin), filter_upper_alnum.
    destruct (truthy n); reflexivity.
Qed.

Lemma name_line_skipped_by_id_scoring_witness :
  fst (bestId (meaningfulLines (lines_of (js "AB123456 CD" ++ [10] ++ js "xyz")))
         (fst (bestName (meaningfulLines (lines_of (js "AB123456 CD" ++ [10] ++ js "xyz"))))))
  <> fst (bestName (meaningfulLines (lines_of (js "AB123456 CD" ++ [10] ++ js "xyz")))) /\
  idNumber (scored (meaningfulLines (lines_of (js "AB123456 CD" ++ [10] ++ js "xyz")))) = None /\
  idNumber (idDataOfText (js "AB123456 CD" ++ [10] ++ js "xyz"))
  = hd_error (match_all re_id
                (join (js " ")
                   (meaningfulLines (lines_of (js "AB123456 CD" ++ [10] ++ js "xyz"))))).
Proof.
  split.
  - apply (proj1 (name_line_skipped_by_id_scoring (js "AB123456 CD" ++ [10] ++ js "xyz"))).
    reflexivity.
  - apply (proj1 (proj2 (name_line_skipped_by_id_scoring
                           (js "AB123456 CD" ++ [10] ++ js "xyz")))).
    intros l Hl Hn. vm_compute in Hl. destruct Hl as [<-|[<-|[]]].
    + exfalso. apply Hn. vm_compute. reflexivity.
    + vm_compute. reflexivity.
Defined.

(** The only line "AB123456 CD" is the name, and the fallback finds the
    ID number "AB123456" inside it. *)
Lemma sole_line_fills_both_fields :
  ~ (forall text l,
       meaningfulLines (lines_of text) = [l] ->
       name (idDataOfText text) = Some l ->
       idNumber (idDataOfText text) = None).
Proof.
  intros H.
  specialize (H (js "AB123456 CD") (js "AB123456 CD") eq_refl eq_refl).
  vm_compute in H. discriminate.
Qed.

Section NormalizeFacts.

Lemma squeeze_In c s : forall after, In c (squeeze after s) -> In c s.
Proof.
  induction s as [|d s IH]; intros after H; [destruct H|].
  cbn [squeeze] in H. destruct (only hyphen d).
  - destruct after.
    + right. eapply IH, H.
    + destruct H as [->|H]; [left; reflexivity|right; eapply IH, H].
  - destruct H as [->|H]; [left; reflexivity|right; eapply IH, H].
Qed.

Lemma squeeze_single s : forall after,
  includes (squeeze after s) [hyphen; hyphen] = false /\
  (after = true -> starts_with [hyphen] (squeeze after s) = false).
Proof.
  induction s as [|d s IH]; intros after; [split; reflexivity|].
  cbn [squeeze]. unfold only. destruct (Z.eqb_spec d hyphen) as [->|Hd].
  - destruct after.
    + apply IH.
    + destruct (IH true) as [H1 H2]. split; [|discriminate].
      cbn [includes starts_with]. rewrite Z.eqb_refl. cbn [andb].
      destruct (squeeze true s) as [|e t] eqn:E; [reflexivity|].
      specialize (H2 eq_refl). cbn [starts_with] in H2.
      rewrite andb_true_r in H2. rewrite H2. exact H1.
  - destruct (IH false) as [H1 _].
    assert (E : (hyphen =? d) = false) by (apply Z.eqb_neq; congruence).
    split.
    + cbn [includes starts_with]. rewrite E. exact H1.
    + intros _. cbn [starts_with]. rewrite E. reflexivity.
Qed.

Lemma normalizePlate_shape s :
  forallb (neg space) (normalizePlate s) = true /\
  includes (normalizePlate s) [hyphen; hyphen] = false.
Proof.
  unfold normalizePlate. split; [|apply squeeze_single].
  apply forallb_forall. intros c Hc. apply squeeze_In in Hc.
  apply filter_In in Hc. apply Hc.
Qed.

End NormalizeFacts.

(** C7.  The single line "ABC 1234" yields the plate "ABC1234"; and for
    every text the plate returned is the winning candidate with its white
    space removed and each run of hyphens made a single hyphen, so it holds
    no white space and no two hyphens in a row. *)
Theorem plate_normalized :
  plateDataOfText (js "ABC 1234") = {| plateNumber := Some (js "ABC1234") |} /\
  forall text,
    plateDataOfText text =
    (if truthy (plateCandidate text)
     then {| plateNumber := Some (normalizePlate (plateCandidate text)) |}
     else emptyPlateData) /\
    forallb (neg space) (normalizePlate (plateCandidate text)) = true /\
    includes (normalizePlate (plateCandidate text)) [hyphen; hyphen] = false.
Proof.
  split; [vm_compute; reflexivity|].
  intros text. split; [|apply normalizePlate_shape].
  unfold plateDataOfText, normalizePlate.
  rewrite formatPlate_spec. reflexivity.
Qed.

Section Examples.

Example name_among_boilerplate :
  idDataOfText (js "IDENTITY CARD" ++ [10] ++ js "John Michael Smith"
                ++ [10] ++ js "A1B2C3D4E5")
  = {| name := Some (js "John Michael Smith");
       idNumber := Some (js "A1B2C3D4E5");
       address := None; city := None |}.
Proof. vm_compute. reflexivity. Qed.

Example header_line_dropped :
  meaningfulLines (lines_of (js "REPUBLIC OF EXAMPLAND")) = [].
Proof. vm_compute. reflexivity. Qed.

Example name_score_of_two_words :
  calculateNameScore (js "John Smith") = S754_finite false 9007199254740991 (-53).
Proof. vm_compute. reflexivity. Qed.

Example plate_with_separator :
  plateDataOfText (js "KA-1234") = {| plateNumber := Some (js "KA-1234") |}.
Proof. vm_compute. reflexivity. Qed.

End Examples.

(* ================================================================= *)
(** * Further properties of the extraction and of the forms that call it *)

Import Forms Shapes.

Section LineFacts.

Lemma dropWhile_suffix p s : exists u, s = u ++ dropWhile p s.
Proof.
  induction s as [|c s [u IH]]; [exists []; reflexivity|].
  simpl. destruct (p c).
  - exists (c :: u). simpl. f_equal. exact IH.
  - exists []. reflexivity.
Qed.

Lemma trim_segment s : exists u v, s = u ++ trim s ++ v.
Proof.
  unfold trim. destruct (dropWhile_suffix space s) as [u Hu].
  destruct (dropWhile_suffix space (rev (dropWhile space s))) as [w Hw].
  exists u, (rev w). rewrite <- rev_app_distr, <- Hw, rev_involutive. exact Hu.
Qed.

Lemma trim_In c s : In c (trim s) -> In c s.
Proof.
  destruct (trim_segment s) as (u & v & H). intros Hc. rewrite H.
  apply in_or_app. right. apply in_or_app. left. exact Hc.
Qed.

Lemma dropWhile_head p s :
  dropWhile p s = [] \/ exists c t, dropWhile p s = c :: t /\ p c = false.
Proof.
  induction s as [|c s IH]; [left; reflexivity|]. simpl.
  destruct (p c) eqn:E; [exact IH|]. right. eauto.
Qed.

Lemma dropWhile_keep_last p a c :
  p c = false -> dropWhile p (a ++ [c]) = dropWhile p a ++ [c].
Proof.
  intros Hc. induction a as [|d a IH]; simpl; [rewrite Hc; reflexivity|].
  destruct (p d); [exact IH|reflexivity].
Qed.

(** What [trim] returns is empty or begins and ends outside white space. *)
Lemma trim_ends s : trim s = [] \/ clear_ends space (trim s).
Proof.
  unfold trim. destruct (dropWhile_head space s) as [E|(c & t & E & Hc)].
  - left. rewrite E. reflexivity.
  - right. rewrite E. simpl rev. rewrite (@dropWhile_keep_last space (rev t) c Hc).
    rewrite rev_app_distr. simpl. split.
    + exists c, (rev (dropWhile space (rev t))). split; [reflexivity|exact Hc].
    + destruct (dropWhile_head space (rev t)) as [E'|(d & t' & E' & Hd)].
      * rewrite E'. exists [], c. split; [reflexivity|exact Hc].
      * rewrite E'. simpl rev. exists (c :: rev t'), d. split; [|exact Hd].
        reflexivity.
Qed.

Lemma split_on_In sep s piece c :
  In piece (split_on sep s) -> In c piece -> In c s /\ c <> sep.
Proof.
  revert piece. induction s as [|d s IH]; intros piece Hp Hc.
  - simpl in Hp. destruct Hp as [<-|[]]. destruct Hc.
  - cbn [split_on] in Hp. destruct (Z.eqb_spec d sep) as [->|Hd].
    + destruct Hp as [<-|Hp]; [destruct Hc|].
      destruct (IH _ Hp Hc). split; [right|]; assumption.
    + destruct (split_on sep s) as [|q qs] eqn:E.
      * destruct Hp as [<-|[]]. destruct Hc as [<-|[]]. split; [left; reflexivity|exact Hd].
      * destruct Hp as [<-|Hp].
        -- destruct Hc as [<-|Hc]; [split; [left; reflexivity|exact Hd]|].
           destruct (IH q (or_introl eq_refl) Hc). split; [right|]; assumption.
        -- destruct (IH piece (or_intror Hp) Hc). split; [right|]; assumption.
Qed.

Lemma lines_of_In text l c : In l (lines_of text) -> In c l -> In c text /\ c <> 10.
Proof.
  unfold lines_of. intros Hl Hc. apply filter_In in Hl. destruct Hl as [Hl _].
  apply in_map_iff in Hl. destruct Hl as (piece & <- & Hp).
  apply trim_In in Hc. exact (@split_on_In 10 _ _ _ Hp Hc).
Qed.

End LineFacts.

(** X1.  Every line the normalizer hands on is non-empty, holds no line
    feed, and begins and ends with a character that is not white space. *)
Theorem lines_are_trimmed text l :
  In l (lines_of text) ->
  clear_ends space l /\ ~ In 10 l.
Proof.
  intros Hl. split.
  - unfold lines_of in Hl. apply filter_In in Hl. destruct Hl as [Hl Hn].
    apply in_map_iff in Hl. destruct Hl as (piece & <- & _).
    destruct (trim_ends piece) as [E|H]; [|exact H].
    rewrite E in Hn. discriminate.
  - intros Hc. destruct (@lines_of_In _ _ _ Hl Hc) as [_ H]. apply H. reflexivity.
Qed.

Lemma lines_are_trimmed_witness :
  clear_ends space (js "John Smith") /\ ~ In 10 (js "John Smith").
Proof.
  apply (@lines_are_trimmed (js "  John Smith  " ++ [10] ++ js "x")).
  vm_compute. left. reflexivity.
Defined.

Section FilterFacts.

Lemma test_from_sound r rest : forall prev,
  test_from r prev rest = true ->
  exists m a b, rest = a ++ m ++ b /\ den r m.
Proof.
  induction rest as [|c rest' IH]; intros prev H; cbn [test_from] in H.
  - destruct (match_here r prev []) as [n|] eqn:E; [|discriminate].
    destruct (match_here_firstn _ _ _ E) as (Hd & Hs & _).
    exists (firstn n []), [], (skipn n []). split; [exact Hs|exact Hd].
  - destruct (match_here r prev (c :: rest')) as [n|] eqn:E.
    + destruct (match_here_firstn _ _ _ E) as (Hd & Hs & _).
      exists (firstn n (c :: rest')), [], (skipn n (c :: rest')).
      split; [exact Hs|exact Hd].
    + destruct (IH _ H) as (m & a & b & -> & Hd).
      exists m, (c :: a), b. split; [reflexivity|exact Hd].
Qed.

Lemma test_sound r s :
  test r s = true -> exists m a b, s = a ++ m ++ b /\ den r m.
Proof. apply test_from_sound. Qed.

Lemma den_date_slash m : den re_date m -> In slash m.
Proof.
  unfold re_date, between. cbn [seq den].
  intros (u0 & r0 & -> & -> & u1 & r1 & -> & _ & u2 & r2 & -> & (c & -> & Hc) & _).
  unfold only in Hc. apply Z.eqb_eq in Hc. subst c.
  simpl. apply in_or_app. right. left. reflexivity.
Qed.

Lemma toUpperCase_In c s :
  In c (toUpperCase s) -> In c s \/ (In (c + 32) s /\ lower (c + 32) = true).
Proof.
  unfold toUpperCase. intros H. apply in_map_iff in H.
  destruct H as (d & Hd & Hin). destruct (lower d) eqn:E.
  - right. replace (c + 32) with d by lia. split; assumption.
  - left. subst d. exact Hin.
Qed.

Lemma clean_In c line : In c (clean line) -> kept c = true /\ In c line.
Proof.
  intros H. split; [exact (clean_kept _ _ H)|].
  unfold clean, re_not_kept in H. rewrite replace_cls in H.
  apply filter_In in H. destruct H as [H _]. apply trim_In, H.
Qed.

Lemma all_special_test s :
  existsb alnum s = false -> test re_only_special s = true.
Proof.
  intros H. unfold test.
  assert (Hrun : run_length (neg alnum) s = List.length s).
  { induction s as [|c s IH]; [reflexivity|]. simpl in H |- *.
    apply orb_false_elim in H. destruct H as [Hc Hs]. unfold neg at 1.
    rewrite Hc. simpl. f_equal. apply IH, Hs. }
  assert (Hm : match_here re_only_special None s <> None).
  { unfold match_here, re_only_special, star. cbn [seq run fst snd flat_map].
    rewrite app_nil_r.
    destruct (@quant_greedy (neg alnum) s 0%nat None ltac:(lia)) as (prev' & tail & ->).
    rewrite Hrun, skipn_all. cbn [flat_map run snd]. discriminate. }
  destruct s as [|c s]; cbn [test_from];
    destruct (match_here re_only_special None _); congruence.
Qed.

Lemma existsb_false_In (A : Type) (f : A -> bool) l x :
  existsb f l = false -> In x l -> f x = false.
Proof.
  intros H Hx. destruct (f x) eqn:E; [|reflexivity].
  assert (existsb f l = true) by (apply existsb_exists; eauto). congruence.
Qed.

End FilterFacts.

(** X2.  A meaningful line has between 3 and 50 characters, holds at least
    one ASCII letter or digit, and its upper-cased text contains none of the
    fourteen header words. *)
Theorem meaningful_line_invariant text l :
  In l (meaningfulLines (lines_of text)) ->
  (3 <= List.length l <= 50)%nat /\
  existsb alnum l = true /\
  forall h, In h headers -> includes (toUpperCase l) h = false.
Proof.
  intros Hl. split; [apply (meaningful_line _ _ Hl)|].
  rewrite meaningfulLines_filter in Hl. apply filter_In in Hl.
  destruct Hl as [_ Hs]. apply negb_true_iff in Hs. unfold skipped in Hs.
  apply orb_false_elim in Hs. destruct Hs as [Hs Hspecial].
  apply orb_false_elim in Hs. destruct Hs as [Hs _].
  apply orb_false_elim in Hs. destruct Hs as [_ Hheaders].
  split.
  - destruct (existsb alnum l) eqn:E; [reflexivity|].
    rewrite (all_special_test _ E) in Hspecial. discriminate.
  - intros h Hh. exact (existsb_false_In _ _ _ Hheaders Hh).
Qed.

Lemma meaningful_line_invariant_witness :
  (3 <= List.length (js "John Smith") <= 50)%nat /\
  existsb alnum (js "John Smith") = true /\
  forall h, In h headers -> includes (toUpperCase (js "John Smith")) h = false.
Proof.
  apply (@meaningful_line_invariant (js "ID CARD" ++ [10] ++ js "John Smith")).
  vm_compute. left. reflexivity.
Defined.

(** X3.  The date test of the filtering loop never holds: the slash it
    looks for has been stripped from the line before. *)
Theorem date_test_never_holds line :
  test re_date (toUpperCase (clean line)) = false.
Proof.
  destruct (test re_date (toUpperCase (clean line))) eqn:E; [|reflexivity].
  exfalso. destruct (test_sound _ _ E) as (m & a & b & Hs & Hd).
  apply den_date_slash in Hd.
  assert (Hin : In slash (toUpperCase (clean line))).
  { rewrite Hs. apply in_or_app. right. apply in_or_app. left. exact Hd. }
  apply toUpperCase_In in Hin. destruct Hin as [Hin|[_ Hl]].
  - apply clean_In in Hin. destruct Hin as [Hk _]. vm_compute in Hk. discriminate.
  - vm_compute in Hl. discriminate.
Qed.

Section EmptyFacts.

Lemma existsb_false_subset (f : Z -> bool) (s t : str) :
  (forall c, In c s -> In c t) -> existsb f t = false -> existsb f s = false.
Proof.
  intros Hsub Ht. destruct (existsb f s) eqn:E; [|reflexivity].
  apply existsb_exists in E. destruct E as (c & Hc & Hf).
  rewrite (existsb_false_In _ _ _ Ht (Hsub c Hc)) in Hf. discriminate.
Qed.

Lemma all_skipped lines :
  (forall line, In line lines -> skipped (clean line) = true) ->
  meaningfulLines lines = [].
Proof.
  rewrite meaningfulLines_filter. induction lines as [|line lines IH]; intros H.
  - reflexivity.
  - cbn [map filter]. rewrite (H line) by (left; reflexivity). cbn [negb].
    apply IH. intros l Hl. apply H. right. exact Hl.
Qed.

End EmptyFacts.

(** X4.  A text without any ASCII letter or digit has no meaningful line
    and gives the empty record. *)
Theorem no_letter_or_digit_no_id_data text :
  existsb alnum text = false ->
  meaningfulLines (lines_of text) = [] /\ idDataOfText text = emptyIDData.
Proof.
  intros H.
  assert (Hml : meaningfulLines (lines_of text) = []).
  { apply all_skipped. intros line Hl. unfold skipped.
    rewrite all_special_test; [apply orb_true_r|].
    apply existsb_false_subset with (t := text); [|exact H].
    intros c Hc. apply clean_In in Hc. destruct Hc as [_ Hc].
    exact (proj1 (@lines_of_In _ _ _ Hl Hc)). }
  split; [exact Hml|]. unfold idDataOfText. rewrite Hml. reflexivity.
Qed.

Lemma no_letter_or_digit_no_id_data_witness :
  meaningfulLines (lines_of (js "--- ***" ++ [10] ++ js " .. ")) = [] /\
  idDataOfText (js "--- ***" ++ [10] ++ js " .. ") = emptyIDData.
Proof.
  apply no_letter_or_digit_no_id_data. reflexivity.
Defined.

Section CountedScores.

Lemma filter_neg_neg (p : Z -> bool) s : filter (neg (neg p)) s = filter p s.
Proof. apply filter_ext. intros c. unfold neg. apply negb_involutive. Qed.

Lemma calculateIdScore_counts line :
  calculateIdScore line =
  idScoreOf (existsb digit line) (existsb letter line)
            (count alnum line) (List.length line).
Proof.
  unfold calculateIdScore, idScoreOf, re_digit, re_letter, re_not_alnum, length.
  rewrite !test_cls, replace_cls, filter_neg_neg. reflexivity.
Qed.

Lemma calculateNameScore_counts line :
  calculateNameScore line =
  if existsb letter line then
    let words := filter (fun w => (0 <? length w)%nat) (split re_spaces line) in
    nameScoreOf (count (either letter space) line) (List.length line)
                (List.length words)
                (List.length (filter (fun w => test re_capitalized w) words))
  else zero.
Proof.
  unfold calculateNameScore, nameScoreOf, re_letter, re_letter_or_space, length.
  rewrite test_cls. unfold match_all. rewrite match_from_cls.
  destruct (existsb letter line); reflexivity.
Qed.

Lemma calculatePlateScore_counts text :
  let cleanText := filter upper_alnum text in
  calculatePlateScore text =
  plateScoreOf (existsb digit cleanText) (existsb upper cleanText)
               (List.length cleanText)
               (test re_letters_digits cleanText)
               (test re_digits_letters cleanText)
               (test re_letter_digits cleanText).
Proof.
  unfold calculatePlateScore, plateScoreOf, re_digit, re_upper,
    re_not_upper_alnum, length.
  rewrite replace_cls, filter_neg_neg, !test_cls. reflexivity.
Qed.

(** The scores of lines of at most 50 characters, case by case. *)
Lemma id_score_without_digit :
  forallb (fun b =>
    forallb (fun a => negb (gt (idScoreOf false true a b) n0_6)
                      && negb (gt (idScoreOf false false a b) n0_6))
            (List.seq 0%nat (S b)))
    (List.seq 0%nat 51%nat) = true.
Proof. vm_compute. reflexivity. Qed.

Lemma id_score_all_alnum :
  forallb (fun b => gt (idScoreOf true true b b) n0_6
                    && gt (idScoreOf true false b b) n0_6)
    (List.seq 1%nat 50%nat) = true.
Proof. vm_compute. reflexivity. Qed.

Lemma name_score_one_word :
  forallb (fun n => gt (nameScoreOf n n 1%nat 1%nat) n0_7) (List.seq 5%nat 36%nat) = true.
Proof. vm_compute. reflexivity. Qed.

Lemma count_forallb p s : forallb p s = true -> count p s = List.length s.
Proof.
  intros H. apply count_all. apply Forall_forall. intros c Hc.
  rewrite forallb_forall in H. apply H, Hc.
Qed.

Lemma split_from_no_space rest : forall prev cur,
  forallb (neg space) rest = true ->
  split_from (plus space) prev rest cur 0 = [rev cur ++ rest].
Proof.
  induction rest as [|c rest' IH]; intros prev cur H.
  - simpl. rewrite app_nil_r. reflexivity.
  - cbn [forallb] in H. apply andb_prop in H. destruct H as [Hc Hr].
    unfold neg in Hc. apply negb_true_iff in Hc.
    cbn [split_from]. rewrite match_here_plus. cbn [run_length]. rewrite Hc.
    rewrite IH by exact Hr. cbn [rev]. rewrite <- app_assoc. reflexivity.
Qed.

Lemma test_capitalized c rest : test re_capitalized (c :: rest) = upper c.
Proof.
  unfold test, re_capitalized. cbn [test_from seq].
  unfold match_here. cbn [run fst snd flat_map].
  destruct (upper c) eqn:E; cbn [flat_map app].
  - reflexivity.
  - clear. revert c. induction rest as [|d rest IH]; intros c; [reflexivity|].
    cbn [test_from]. unfold match_here. cbn [run fst snd flat_map]. apply IH.
Qed.

Lemma id_score_above_digit line :
  (List.length line <= 50)%nat ->
  gt (calculateIdScore line) n0_6 = true -> existsb digit line = true.
Proof.
  intros Hlen. rewrite calculateIdScore_counts.
  intros H. destruct (existsb digit line) eqn:Ed; [reflexivity|]. exfalso.
  pose proof id_score_without_digit as He. rewrite forallb_forall in He.
  specialize (He (List.length line)). rewrite forallb_forall in He.
  assert (Ha : (count alnum line <= List.length line)%nat) by apply count_le_length.
  specialize (He ltac:(apply in_seq; lia) (count alnum line) ltac:(apply in_seq; lia)).
  apply andb_prop in He. destruct He as [H1 H2].
  destruct (existsb letter line); [rewrite H in H1|rewrite H in H2]; discriminate.
Qed.

End CountedScores.

(** X5.  Among lines of at most 50 characters (what the noise filter lets
    through), a line whose ID score exceeds 0.6 holds a digit, and every
    line made of ASCII letters and digits only that holds a digit exceeds
    0.6. *)
Theorem id_score_needs_digit line :
  (List.length line <= 50)%nat ->
  (gt (calculateIdScore line) n0_6 = true -> existsb digit line = true) /\
  (forallb alnum line = true -> existsb digit line = true ->
   gt (calculateIdScore line) n0_6 = true).
Proof.
  intros Hlen. split.
  - apply id_score_above_digit, Hlen.
  - rewrite calculateIdScore_counts. intros Hall Hd. rewrite Hd, (count_forallb _ _ Hall).
    assert (Hn : (1 <= List.length line)%nat).
    { destruct line; [discriminate|simpl; lia]. }
    pose proof id_score_all_alnum as He. rewrite forallb_forall in He.
    specialize (He (List.length line) ltac:(apply in_seq; lia)).
    apply andb_prop in He. destruct He as [H1 H2].
    destruct (existsb letter line); assumption.
Qed.

Lemma id_score_needs_digit_witness :
  (gt (calculateIdScore (js "12051990")) n0_6 = true ->
   existsb digit (js "12051990") = true) /\
  (forallb alnum (js "12051990") = true -> existsb digit (js "12051990") = true ->
   gt (calculateIdScore (js "12051990")) n0_6 = true).
Proof.
  apply (@id_score_needs_digit (js "12051990")). vm_compute. lia.
Defined.

(** X6.  A single capitalised word of 5 to 40 ASCII letters scores above
    the name threshold 0.7, without the bonus for two to four words: in
    binary64 the sum 0.4 + 0.2 + 0.1 ends above 0.7. *)
Theorem single_word_is_a_name c rest :
  upper c = true -> forallb letter rest = true ->
  (4 <= List.length rest <= 39)%nat ->
  gt (calculateNameScore (c :: rest)) n0_7 = true.
Proof.
  intros Hc Hr Hlen.
  assert (Hall : forallb letter (c :: rest) = true).
  { cbn [forallb]. unfold letter at 1. rewrite Hc, Hr. reflexivity. }
  assert (Hns : forallb (neg space) (c :: rest) = true).
  { apply forallb_forall. intros d Hd. rewrite forallb_forall in Hall.
    unfold neg. rewrite (letter_not_space _ (Hall d Hd)). reflexivity. }
  rewrite calculateNameScore_counts.
  cbn [existsb]. unfold letter at 1. rewrite Hc. cbn [orb]. cbv zeta.
  unfold split, re_spaces. rewrite split_from_no_space by exact Hns.
  cbn [rev app filter length List.length Nat.ltb Nat.leb].
  rewrite test_capitalized, Hc. cbn [List.length].
  assert (Hcount : count (either letter space) (c :: rest) = S (List.length rest)).
  { change (S (List.length rest)) with (List.length (c :: rest)).
    apply count_forallb. apply forallb_forall. intros d Hd.
    rewrite forallb_forall in Hall. unfold either. rewrite (Hall d Hd). reflexivity. }
  rewrite Hcount.
  pose proof name_score_one_word as He. rewrite forallb_forall in He.
  apply He. apply in_seq. lia.
Qed.

Lemma single_word_is_a_name_witness :
  gt (calculateNameScore (js "Hello")) n0_7 = true.
Proof.
  apply (@single_word_is_a_name 72 (js "ello")); [reflexivity|reflexivity|].
  vm_compute. lia.
Defined.

Section ReportedFacts.

Lemma scored_idNumber ml :
  idNumber (scored ml) =
  if truthy (fst (bestId ml (fst (bestName ml))))
  then Some (filter upper_alnum (fst (bestId ml (fst (bestName ml)))))
  else None.
Proof.
  unfold scored. rewrite filter_upper_alnum.
  destruct (truthy (fst (bestName ml))), (truthy (fst (bestId ml _))); reflexivity.
Qed.

Lemma fallback_idNumber_kept ml d :
  present (idNumber d) = true -> idNumber (fallback ml d) = idNumber d.
Proof.
  intros H. unfold fallback.
  destruct (negb (present (name d)) || negb (present (idNumber d))); [|reflexivity].
  destruct (negb (present (name d))).
  - destruct (match_all re_name _) as [|first rest]; cbn [idNumber set_name];
      rewrite H; reflexivity.
  - rewrite H. reflexivity.
Qed.

(** The line the ID loop keeps holds a digit, and so does what is reported. *)
Lemma id_candidate_digit text :
  let ml := meaningfulLines (lines_of text) in
  let i := fst (bestId ml (fst (bestName ml))) in
  truthy i = true -> existsb digit (filter upper_alnum i) = true.
Proof.
  intros ml i Ht.
  destruct (chosen_truthy (bestId_chosen text (fst (bestName ml))) Ht)
    as (pre & post & Hls & _ & Hs & _).
  fold ml in Hls. fold i in Hls, Hs.
  assert (Hin : In i ml) by (rewrite Hls; apply in_elt).
  pose proof (proj2 (meaningful_line _ _ Hin)) as Hlen.
  pose proof (@id_score_above_digit i ltac:(lia) Hs) as Hd.
  apply existsb_exists in Hd. destruct Hd as (c & Hc & Hd).
  apply existsb_exists. exists c. split; [|exact Hd].
  apply filter_In. split; [exact Hc|apply digit_is_upper_alnum, Hd].
Qed.

Lemma den_id_shape v :
  den re_id v ->
  forallb upper_alnum v = true /\ (8 <= List.length v <= 15)%nat.
Proof.
  unfold re_id, between. cbn [seq den].
  intros (u0 & r0 & -> & -> & u1 & r1 & -> & (Hf & Hlo & Hhi) & ->).
  rewrite app_nil_r. simpl. split; [|lia].
  apply forallb_forall. rewrite Forall_forall in Hf. exact Hf.
Qed.

End ReportedFacts.

(** X7.  Whenever [idNumber] is set it is a non-empty string of the
    characters A-Z and 0-9; taken from the scoring loop it holds a digit,
    taken from the fallback it has 8 to 15 characters. *)
Theorem id_number_shape text v :
  let ml := meaningfulLines (lines_of text) in
  idNumber (idDataOfText text) = Some v ->
  forallb upper_alnum v = true /\ v <> [] /\
  (idNumber (scored ml) <> None -> existsb digit v = true) /\
  (idNumber (scored ml) = None -> (8 <= List.length v <= 15)%nat).
Proof.
  intros ml. unfold idDataOfText. fold ml.
  pose proof (id_candidate_digit text) as Hd. cbv zeta in Hd. fold ml in Hd.
  pose proof (scored_idNumber ml) as Hs.
  destruct (truthy (fst (bestId ml (fst (bestName ml))))) eqn:Ht.
  - specialize (Hd eq_refl).
    set (w := filter upper_alnum (fst (bestId ml (fst (bestName ml))))) in *.
    assert (Hp : present (idNumber (scored ml)) = true).
    { rewrite Hs. cbn [present]. destruct w; [discriminate|reflexivity]. }
    rewrite (fallback_idNumber_kept ml _ Hp), Hs. intros [= <-].
    split; [|split; [|split]].
    + apply forallb_forall. intros c Hc. apply filter_In in Hc. apply Hc.
    + intros E. rewrite E in Hd. discriminate.
    + intros _. exact Hd.
    + intros [=].
  - rewrite (fallback_idNumber ml _ Hs), Hs.
    destruct (match_all re_id (join (js " ") ml)) as [|first rest] eqn:E;
      [discriminate|].
    intros [= <-].
    destruct (@match_all_sound re_id (join (js " ") ml) first) as [Hden _];
      [rewrite E; left; reflexivity|].
    destruct (den_id_shape Hden) as [Hf Hl].
    split; [exact Hf|split; [|split]].
    + intros Ev. rewrite Ev in Hl. simpl in Hl. lia.
    + intros Hn. contradiction.
    + intros _. exact Hl.
Qed.

Lemma id_number_shape_witness :
  forallb upper_alnum (js "12051990") = true /\ js "12051990" <> [] /\
  (idNumber (scored (meaningfulLines (lines_of (js "12/05/1990")))) <> None ->
   existsb digit (js "12051990") = true) /\
  (idNumber (scored (meaningfulLines (lines_of (js "12/05/1990")))) = None ->
   (8 <= List.length (js "12051990") <= 15)%nat).
Proof.
  apply (@id_number_shape (js "12/05/1990") (js "12051990")). reflexivity.
Defined.

(** X8.  The fallback only fills what scoring left unset: a name or an ID
    number that the scoring loops produced is returned as it is. *)
Theorem fallback_keeps_scored_fields text :
  let ml := meaningfulLines (lines_of text) in
  (forall x, name (scored ml) = Some x -> name (idDataOfText text) = Some x) /\
  (forall y, idNumber (scored ml) = Some y -> idNumber (idDataOfText text) = Some y).
Proof.
  intros ml. unfold idDataOfText. fold ml. split.
  - intros x Hx. rewrite fallback_name, Hx. rewrite scored_name in Hx.
    destruct (truthy (fst (bestName ml))) eqn:Ht; [|discriminate].
    destruct (chosen_truthy (bestName_chosen text) Ht) as (_ & _ & _ & _ & Hs & _).
    injection Hx as <-. cbn [present].
    rewrite (reported_name_truthy (fst (bestName ml)) Hs). reflexivity.
  - intros y Hy. rewrite fallback_idNumber_kept; [exact Hy|].
    rewrite Hy. rewrite scored_idNumber in Hy.
    pose proof (id_candidate_digit text) as Hd. cbv zeta in Hd. fold ml in Hd.
    destruct (truthy (fst (bestId ml (fst (bestName ml))))); [|discriminate].
    injection Hy as <-. specialize (Hd eq_refl). cbn [present].
    destruct (filter upper_alnum _); [discriminate|reflexivity].
Qed.

Lemma fallback_keeps_scored_fields_witness :
  name (idDataOfText (js "John Smith" ++ [10] ++ js "A1B2C3D4E5"))
  = Some (js "John Smith") /\
  idNumber (idDataOfText (js "John Smith" ++ [10] ++ js "A1B2C3D4E5"))
  = Some (js "A1B2C3D4E5").
Proof.
  split.
  - apply (proj1 (fallback_keeps_scored_fields
                    (js "John Smith" ++ [10] ++ js "A1B2C3D4E5"))). reflexivity.
  - apply (proj2 (fallback_keeps_scored_fields
                    (js "John Smith" ++ [10] ++ js "A1B2C3D4E5"))). reflexivity.
Defined.

Section SquashFacts.

Lemma squash_flag s : run_length space s = O -> squash true s = squash false s.
Proof.
  destruct s as [|c s]; [reflexivity|]. simpl.
  destruct (space c); [discriminate|reflexivity].
Qed.

Lemma replace_from_spaces rest :
  (forall prev, replace_from re_spaces [32] prev rest 0 = squash false rest) /\
  (forall prev skip, skip = run_length space rest ->
     replace_from re_spaces [32] prev rest skip = squash true rest).
Proof.
  unfold re_spaces.
  induction rest as [|c rest' [IH1 IH2]].
  - split; [reflexivity|]. intros prev skip ->. reflexivity.
  - assert (H1 : forall prev,
               replace_from (plus space) [32] prev (c :: rest') 0
               = squash false (c :: rest')).
    { intros prev. cbn [replace_from]. rewrite match_here_plus.
      cbn [run_length squash]. destruct (space c) eqn:E.
      - cbn [Nat.pred app]. rewrite (IH2 (Some c) _ eq_refl). reflexivity.
      - rewrite IH1. reflexivity. }
    split; [exact H1|].
    intros prev skip ->. cbn [run_length squash].
    destruct (space c) eqn:E.
    + cbn [replace_from]. apply IH2. reflexivity.
    + rewrite H1. cbn [squash]. rewrite E. reflexivity.
Qed.

Lemma replace_spaces_squash s : replace re_spaces (js " ") s = squash false s.
Proof. apply (proj1 (replace_from_spaces s)). Qed.

Lemma squash_space c s : forall after,
  In c (squash after s) -> space c = true -> c = 32.
Proof.
  induction s as [|d s IH]; intros after H Hc; [destruct H|].
  cbn [squash] in H. destruct (space d) eqn:E.
  - destruct after; [eapply IH; eassumption|].
    destruct H as [<-|H]; [reflexivity|eapply IH; eassumption].
  - destruct H as [<-|H]; [congruence|eapply IH; eassumption].
Qed.

Lemma squash_head s c t : squash true s = c :: t -> space c = false.
Proof.
  revert c t. induction s as [|d s IH]; intros c t H; [discriminate|].
  cbn [squash] in H. destruct (space d) eqn:E; [eapply IH, H|].
  injection H as <- _. exact E.
Qed.

Lemma squash_no_double s : forall after, no_double space (squash after s).
Proof.
  induction s as [|d s IH]; intros after a x y b H Hx Hy.
  - destruct a; discriminate.
  - cbn [squash] in H. destruct (space d) eqn:E.
    + destruct after; [exact (IH true a x y b H Hx Hy)|].
      destruct a as [|e a].
      * injection H as _ H. rewrite (squash_head _ H) in Hy. discriminate.
      * injection H as _ H. exact (IH true a x y b H Hx Hy).
    + destruct a as [|e a].
      * injection H as <- _. congruence.
      * injection H as _ H. exact (IH false a x y b H Hx Hy).
Qed.

Lemma no_double_segment p u s v : no_double p (u ++ s ++ v) -> no_double p s.
Proof.
  intros H a x y b -> Hx Hy. apply (H (u ++ a) x y (b ++ v)); auto.
  rewrite <- !app_assoc. reflexivity.
Qed.

Lemma nonempty_last (p : Z -> bool) l :
  l <> [] -> Forall (fun c => p c = true) l ->
  exists front c, l = front ++ [c] /\ p c = true.
Proof.
  intros Hne Hf. destruct (exists_last Hne) as (front & c & ->).
  exists front, c. split; [reflexivity|].
  rewrite Forall_forall in Hf. apply Hf. apply in_or_app. right. left. reflexivity.
Qed.

Lemma den_name_shape v :
  den re_name v ->
  (exists c rest, v = c :: rest /\ upper c = true) /\
  (exists front c, v = front ++ [c] /\ lower c = true) /\
  forallb (either letter space) v = true /\
  existsb space v = true.
Proof.
  unfold re_name, plus. cbn [seq den].
  intros (u0 & r0 & -> & -> & u1 & r1 & -> & (c1 & -> & H1) & u2 & r2 & ->
          & (H2 & L2 & _) & u3 & r3 & -> & (H3 & L3 & _) & u4 & r4 & ->
          & (c4 & -> & H4) & u5 & r5 & -> & (H5 & L5 & _) & u6 & r6 & -> & H6 & ->).
  assert (Hlow : forall l, Forall (fun c => lower c = true) l ->
                 Forall (fun c => either letter space c = true) l).
  { intros l. apply Forall_impl. intros c Hc. unfold either, letter.
    rewrite Hc, orb_true_r. reflexivity. }
  assert (Hsp : forall l, Forall (fun c => space c = true) l ->
                Forall (fun c => either letter space c = true) l).
  { intros l. apply Forall_impl. intros c Hc. unfold either.
    rewrite Hc, orb_true_r. reflexivity. }
  assert (Hup : forall c, upper c = true -> either letter space c = true).
  { intros c Hc. unfold either, letter. rewrite Hc. reflexivity. }
  assert (H6' : (exists front c, (u5 ++ u6) = front ++ [c] /\ lower c = true) /\
                Forall (fun c => either letter space c = true) u6).
  { destruct H6 as [->|(w0 & s0 & -> & (Hw0 & Lw0 & _) & w1 & s1 & ->
                        & (c7 & -> & H7) & (H8 & L8 & _))].
    - rewrite app_nil_r. split; [|constructor].
      apply nonempty_last; [|exact H5]. destruct u5; [simpl in L5; lia|discriminate].
    - split.
      + destruct (@nonempty_last lower s1) as (front & c & -> & Hc);
          [destruct s1; [simpl in L8; lia|discriminate]|exact H8|].
        exists (u5 ++ w0 ++ [c7] ++ front), c. split; [|exact Hc].
        rewrite <- !app_assoc. reflexivity.
      + apply Forall_app. split; [apply Hsp, Hw0|].
        apply Forall_app. split; [constructor; [apply Hup, H7|constructor]|].
        apply Hlow, H8. }
  destruct H6' as [(front & c & Hfront & Hc) H6f].
  repeat split.
  - exists c1. eexists. split; [reflexivity|exact H1].
  - exists ([c1] ++ u2 ++ u3 ++ [c4] ++ front), c. split; [|exact Hc].
    rewrite app_nil_r. cbn [app]. f_equal.
    rewrite <- !app_assoc. cbn [app]. rewrite <- Hfront. reflexivity.
  - apply forallb_forall. apply Forall_forall.
    cbn [app]. constructor; [apply Hup, H1|].
    apply Forall_app. split; [apply Hlow, H2|].
    apply Forall_app. split; [apply Hsp, H3|].
    constructor; [apply Hup, H4|].
    apply Forall_app. split; [apply Hlow, H5|].
    apply Forall_app. split; [exact H6f|constructor].
  - apply existsb_exists. destruct u3 as [|s u3]; [simpl in L3; lia|].
    exists s. split; [|inversion H3; assumption].
    cbn [app]. right. apply in_or_app. right. left. reflexivity.
Qed.

End SquashFacts.

(** X9.  A name taken from the scoring loop begins and ends with a
    character that is not white space, its only white-space characters are
    plain spaces, and no two of them are neighbours. *)
Theorem scored_name_shape text v :
  name (scored (meaningfulLines (lines_of text))) = Some v ->
  clear_ends space v /\
  (forall c, In c v -> space c = true -> c = 32) /\
  no_double space v.
Proof.
  set (ml := meaningfulLines (lines_of text)).
  rewrite scored_name.
  destruct (truthy (fst (bestName ml))) eqn:Ht; [|discriminate].
  destruct (chosen_truthy (bestName_chosen text) Ht) as (_ & _ & _ & _ & Hs & _).
  fold ml in Hs. pose proof (reported_name_truthy (fst (bestName ml)) Hs) as Hne.
  intros [= <-]. rewrite replace_spaces_squash in *.
  set (q := squash false (fst (bestName ml))) in *.
  split; [|split].
  - destruct (trim_ends q) as [E|H]; [rewrite E in Hne; discriminate|exact H].
  - intros c Hc Hsp. apply trim_In in Hc. exact (squash_space _ _ _ Hc Hsp).
  - destruct (trim_segment q) as (u & w & Hq).
    apply (@no_double_segment space u (trim q) w). rewrite <- Hq.
    apply squash_no_double.
Qed.

Lemma scored_name_shape_witness :
  clear_ends space (js "John Smith") /\
  (forall c, In c (js "John Smith") -> space c = true -> c = 32) /\
  no_double space (js "John Smith").
Proof.
  apply (@scored_name_shape (js "John" ++ [9; 32; 32] ++ js "Smith") (js "John Smith")).
  reflexivity.
Defined.

(** X10.  A name taken from the fallback matcher begins with an upper-case
    letter, ends with a lower-case letter, is made of ASCII letters and
    white space only and holds white space. *)
Theorem fallback_name_shape text v :
  name (scored (meaningfulLines (lines_of text))) = None ->
  name (idDataOfText text) = Some v ->
  (exists c rest, v = c :: rest /\ upper c = true) /\
  (exists front c, v = front ++ [c] /\ lower c = true) /\
  forallb (either letter space) v = true /\
  existsb space v = true.
Proof.
  set (ml := meaningfulLines (lines_of text)). intros Hs.
  unfold idDataOfText. fold ml. rewrite fallback_name, Hs. cbn [present].
  destruct (match_all re_name (join (js " ") ml)) as [|first rest] eqn:E;
    [discriminate|].
  intros [= <-].
  destruct (@match_all_sound re_name (join (js " ") ml) first) as [Hd _];
    [rewrite E; left; reflexivity|].
  exact (den_name_shape Hd).
Qed.

Lemma fallback_name_shape_witness :
  (exists c rest, js "Abc Def" = c :: rest /\ upper c = true) /\
  (exists front c, js "Abc Def" = front ++ [c] /\ lower c = true) /\
  forallb (either letter space) (js "Abc Def") = true /\
  existsb space (js "Abc Def") = true.
Proof.
  apply (@fallback_name_shape (js "Abc" ++ [10] ++ js "Def") (js "Abc Def"));
    reflexivity.
Defined.

Section PlateLoopFacts.

Lemma fold_left_flat_map (A B C : Type) (f : A -> C -> A) (g : B -> list C) l :
  forall a,
    fold_left f (flat_map g l) a = fold_left (fun a x => fold_left f (g x) a) l a.
Proof.
  induction l as [|x l IH]; intros a; [reflexivity|].
  cbn [flat_map fold_left]. rewrite fold_left_app. apply IH.
Qed.

Lemma line_step_matches best line :
  line_step best line = fold_left plate_step (matchesOfLine line) best.
Proof.
  unfold line_step, matchesOfLine.
  destruct (length (cleanPlateLine line) <? 3)%nat; [reflexivity|].
  rewrite fold_left_flat_map. reflexivity.
Qed.

Lemma bestPlate_matches lines :
  bestPlate lines = fold_left plate_step (allMatches lines) ([], zero).
Proof.
  unfold bestPlate, allMatches. rewrite fold_left_flat_map.
  apply fold_left_ext. intros a b. apply line_step_matches.
Qed.

Lemma plate_step_sel ms : forall best,
  nonneg (snd best) = true ->
  fold_left plate_step ms best
  = fold_left (sel_step (fun _ => true) calculatePlateScore zero) ms best.
Proof.
  induction ms as [|m ms IH]; intros best Hb; [reflexivity|].
  cbn [fold_left].
  assert (Hs : nonneg (calculatePlateScore m) = true)
    by apply calculatePlateScore_bounded.
  assert (E : plate_step best m
              = sel_step (fun _ => true) calculatePlateScore zero best m).
  { unfold plate_step, sel_step, best_step.
    destruct (gt (calculatePlateScore m) (snd best)) eqn:Eg; [|reflexivity].
    rewrite (gt_zero _ _ Hs Hb Eg). reflexivity. }
  rewrite <- E. apply IH. unfold plate_step.
  destruct (gt (calculatePlateScore m) (snd best)); [exact Hs|exact Hb].
Qed.

Lemma bestPlate_chosen lines :
  chosen (fun _ => true) calculatePlateScore zero (allMatches lines) (bestPlate lines).
Proof.
  rewrite bestPlate_matches, plate_step_sel by reflexivity.
  apply chosen_all; [reflexivity|].
  intros x _. apply calculatePlateScore_bounded.
Qed.

Lemma allMatches_In m lines :
  In m (allMatches lines) ->
  exists line pattern,
    In line lines /\ In pattern platePatterns /\
    In m (match_all pattern (cleanPlateLine line)).
Proof.
  unfold allMatches. intros H. apply in_flat_map in H.
  destruct H as (line & Hl & H). unfold matchesOfLine in H.
  destruct (length (cleanPlateLine line) <? 3)%nat; [destruct H|].
  apply in_flat_map in H. destruct H as (pattern & Hp & H). eauto.
Qed.

Lemma cleanPlateLine_trim line :
  cleanPlateLine line = trim (filter plate_kept line).
Proof.
  unfold cleanPlateLine, re_not_plate. rewrite replace_cls, filter_neg_neg.
  rewrite toUpperCase_fixed; [reflexivity|].
  intros c Hc. apply filter_In in Hc. destruct Hc as [_ Hc].
  destruct (lower c) eqn:El; [|reflexivity].
  rewrite (lower_not_plate_kept c El) in Hc. discriminate.
Qed.

Lemma cleanPlateLine_In c line : In c (cleanPlateLine line) -> plate_kept c = true.
Proof.
  rewrite cleanPlateLine_trim. intros H. apply trim_In in H.
  apply filter_In in H. apply H.
Qed.

Lemma hyphen_not_upper_alnum c : only hyphen c = true -> upper_alnum c = false.
Proof.
  unfold only, hyphen. intros H. apply Z.eqb_eq in H. subst c. reflexivity.
Qed.

Lemma count_none (p q : Z -> bool) s :
  (forall c, q c = true -> p c = false) ->
  Forall (fun c => q c = true) s -> count p s = O.
Proof.
  intros H Hs. induction Hs as [|c s Hc _ IH]; [reflexivity|].
  rewrite count_cons, (H c Hc), IH. reflexivity.
Qed.

Lemma upper_not_hyphen c : upper c = true -> only hyphen c = false.
Proof.
  unfold upper, in_range, only, hyphen. intros H. apply andb_prop in H.
  destruct H as [H1 H2]. apply Z.leb_le in H1, H2. apply Z.eqb_neq. lia.
Qed.

Lemma digit_not_hyphen c : digit c = true -> only hyphen c = false.
Proof.
  unfold digit, in_range, only, hyphen. intros H. apply andb_prop in H.
  destruct H as [H1 H2]. apply Z.leb_le in H1, H2. apply Z.eqb_neq. lia.
Qed.

Lemma upper_alnum_not_hyphen c : upper_alnum c = true -> only hyphen c = false.
Proof.
  unfold upper_alnum. intros H. apply orb_prop in H.
  destruct H; [apply upper_not_hyphen|apply digit_not_hyphen]; assumption.
Qed.

(** What a match of a plate template looks like. *)
Lemma plate_pattern_shape pattern m :
  In pattern platePatterns -> den pattern m ->
  (List.length m <= 8)%nat /\ (count (only hyphen) m <= 1)%nat.
Proof.
  unfold platePatterns, between, maybe.
  intros [<-|[<-|[<-|[<-|[<-|[]]]]]]; cbn [seq den].
  - intros (u0 & r0 & -> & -> & u1 & r1 & -> & (H1 & _ & L1) & u2 & r2 & ->
            & (_ & _ & L2) & u3 & r3 & -> & (H3 & _ & L3) & ->).
    rewrite ?app_nil_r; cbn [app]; rewrite ?count_app, ?length_app.
    rewrite (@count_none (only hyphen) upper _ upper_not_hyphen H1).
    rewrite (@count_none (only hyphen) digit _ digit_not_hyphen H3).
    pose proof (count_le_length (only hyphen) u2). simpl. lia.
  - intros (u0 & r0 & -> & -> & u1 & r1 & -> & (H1 & _ & L1) & u2 & r2 & ->
            & (_ & _ & L2) & u3 & r3 & -> & (H3 & _ & L3) & ->).
    rewrite ?app_nil_r; cbn [app]; rewrite ?count_app, ?length_app.
    rewrite (@count_none (only hyphen) digit _ digit_not_hyphen H1).
    rewrite (@count_none (only hyphen) upper _ upper_not_hyphen H3).
    pose proof (count_le_length (only hyphen) u2). simpl. lia.
  - intros (u0 & r0 & -> & -> & u1 & r1 & -> & (H1 & _ & L1) & u2 & r2 & ->
            & (H2 & _ & L2) & u3 & r3 & -> & (H3 & _ & L3) & ->).
    rewrite ?app_nil_r; cbn [app]; rewrite ?count_app, ?length_app.
    rewrite (@count_none (only hyphen) upper _ upper_not_hyphen H1).
    rewrite (@count_none (only hyphen) digit _ digit_not_hyphen H2).
    rewrite (@count_none (only hyphen) upper _ upper_not_hyphen H3). simpl. lia.
  - intros (u0 & r0 & -> & -> & u1 & r1 & -> & (H1 & _ & L1) & u2 & r2 & ->
            & (H2 & _ & L2) & ->).
    rewrite ?app_nil_r; cbn [app]; rewrite ?count_app, ?length_app.
    rewrite (@count_none (only hyphen) digit _ digit_not_hyphen H1).
    rewrite (@count_none (only hyphen) upper _ upper_not_hyphen H2). simpl. lia.
  - intros (u0 & r0 & -> & -> & u1 & r1 & -> & (H1 & _ & L1) & ->).
    rewrite ?app_nil_r; cbn [app]; rewrite ?count_app, ?length_app.
    rewrite (@count_none (only hyphen) upper_alnum _ upper_alnum_not_hyphen H1). simpl. lia.
Qed.

Lemma plate_score_cases :
  forallb (fun hasNumbers =>
  forallb (fun hasLetters =>
  forallb (fun len =>
  forallb (fun t1 =>
  forallb (fun t2 =>
  forallb (fun t3 =>
    implb (hasNumbers || hasLetters)
          (gt (plateScoreOf hasNumbers hasLetters len t1 t2 t3) zero))
    [true; false]) [true; false]) [true; false])
    (List.seq 3%nat 6%nat)) [true; false]) [true; false] = true.
Proof. vm_compute. reflexivity. Qed.

Lemma In_bools (b : bool) : In b [true; false].
Proof. destruct b; simpl; auto. Qed.

Lemma plate_score_positive m :
  (3 <= count upper_alnum m <= 8)%nat -> gt (calculatePlateScore m) zero = true.
Proof.
  intros Hc. rewrite calculatePlateScore_counts. cbv zeta.
  fold (count upper_alnum m).
  set (ct := filter upper_alnum m).
  assert (Hany : existsb digit ct || existsb upper ct = true).
  { assert (Hne : ct <> []).
    { intros E. unfold count in Hc. fold ct in Hc. rewrite E in Hc. simpl in Hc. lia. }
    destruct ct as [|c ct'] eqn:E; [congruence|].
    assert (Hua : upper_alnum c = true).
    { assert (Hin : In c (filter upper_alnum m)) by (fold ct; rewrite E; left; reflexivity).
      apply filter_In in Hin. apply Hin. }
    cbn [existsb]. unfold upper_alnum in Hua.
    destruct (upper c), (digit c); try discriminate; simpl;
      rewrite ?orb_true_r; reflexivity. }
  pose proof plate_score_cases as He.
  rewrite forallb_forall in He. specialize (He _ (In_bools (existsb digit ct))).
  rewrite forallb_forall in He. specialize (He _ (In_bools (existsb upper ct))).
  rewrite forallb_forall in He.
  specialize (He (count upper_alnum m) ltac:(apply in_seq; lia)).
  rewrite forallb_forall in He.
  specialize (He _ (In_bools (test re_letters_digits ct))).
  rewrite forallb_forall in He.
  specialize (He _ (In_bools (test re_digits_letters ct))).
  rewrite forallb_forall in He.
  specialize (He _ (In_bools (test re_letter_digits ct))).
  rewrite Hany in He. exact He.
Qed.

Lemma match_shape lines m :
  In m (allMatches lines) ->
  (3 <= count upper_alnum m)%nat /\ (List.length m <= 8)%nat /\
  (count (only hyphen) m <= 1)%nat /\
  (forall c, In c m -> plate_kept c = true).
Proof.
  intros H. destruct (allMatches_In _ _ H) as (line & pattern & _ & Hp & Hm).
  destruct (match_all_sound _ _ _ Hm) as (Hd & a & b & Hab).
  destruct (plate_pattern_shape _ Hp Hd) as [Hl Hh].
  repeat split; auto.
  - exact (plate_pattern_count _ Hp Hd).
  - intros c Hc. apply (cleanPlateLine_In c line). rewrite Hab.
    apply in_or_app. right. apply in_or_app. left. exact Hc.
Qed.

Lemma squeeze_count p s : forall after,
  (forall c, p c = true -> only hyphen c = false) ->
  count p (squeeze after s) = count p s.
Proof.
  intros after Hp. revert after.
  induction s as [|c s IH]; intros after; [reflexivity|].
  cbn [squeeze]. rewrite count_cons. destruct (only hyphen c) eqn:E.
  - assert (Hc : p c = false).
    { destruct (p c) eqn:Ep; [|reflexivity]. rewrite (Hp c Ep) in E. discriminate. }
    rewrite Hc. destruct after; [apply IH|]. rewrite count_cons, Hc. apply IH.
  - rewrite count_cons. rewrite IH. reflexivity.
Qed.

Lemma squeeze_length s : forall after,
  (List.length (squeeze after s) <= List.length s)%nat /\
  (count (only hyphen) (squeeze after s) <= count (only hyphen) s)%nat.
Proof.
  induction s as [|c s IH]; intros after; [simpl; split; lia|].
  cbn [squeeze]. rewrite (count_cons (only hyphen) c s).
  destruct (only hyphen c) eqn:E.
  - destruct after.
    + destruct (IH true). simpl. lia.
    + rewrite count_cons, E. destruct (IH true). simpl. lia.
  - rewrite count_cons, E. destruct (IH false). simpl. lia.
Qed.

Lemma normalizePlate_counts s :
  count upper_alnum (normalizePlate s) = count upper_alnum s /\
  (List.length (normalizePlate s) <= List.length s)%nat /\
  (count (only hyphen) (normalizePlate s) <= count (only hyphen) s)%nat /\
  (forall c, In c (normalizePlate s) -> In c s /\ space c = false).
Proof.
  unfold normalizePlate. split; [|split; [|split]].
  - rewrite squeeze_count by apply upper_alnum_not_hyphen.
    unfold count. f_equal.
    induction s as [|c s IH]; [reflexivity|]. cbn [filter]. unfold neg at 1.
    destruct (upper_alnum c) eqn:E.
    + rewrite (upper_alnum_not_space c E). cbn [negb filter]. rewrite E, IH. reflexivity.
    + destruct (space c); cbn [negb filter]; rewrite ?E; exact IH.
  - destruct (squeeze_length (filter (neg space) s) false) as [H _].
    pose proof (filter_length_le (neg space) s). lia.
  - destruct (squeeze_length (filter (neg space) s) false) as [_ H].
    pose proof (count_filter (only hyphen) (neg space) s). lia.
  - intros c Hc. apply squeeze_In in Hc. apply filter_In in Hc.
    destruct Hc as [Hc Hs]. unfold neg in Hs. apply negb_true_iff in Hs. auto.
Qed.

Lemma plate_kept_char c : plate_kept c = true -> space c = false -> plate_char c = true.
Proof.
  unfold plate_kept, plate_char. intros H Hs. rewrite Hs, orb_false_r in H. exact H.
Qed.

Lemma plate_char_not_lower c : plate_char c = true -> lower c = false.
Proof.
  intros H. destruct (lower c) eqn:E; [|reflexivity].
  pose proof (lower_not_plate_kept c E) as Hk. unfold plate_kept in Hk.
  unfold plate_char in H. rewrite H in Hk. discriminate.
Qed.

End PlateLoopFacts.

Section PlateResultFacts.

Lemma wholeText_shape lines :
  let allText := toUpperCase (replace re_not_upper_alnum [] (join (js " ") lines)) in
  allText = filter upper_alnum (join (js " ") lines) /\
  forallb upper_alnum allText = true.
Proof.
  cbv zeta. unfold re_not_upper_alnum. rewrite replace_cls, filter_neg_neg.
  assert (Hf : forall c, In c (filter upper_alnum (join (js " ") lines)) ->
                         upper_alnum c = true).
  { intros c Hc. apply filter_In in Hc. apply Hc. }
  rewrite toUpperCase_fixed.
  - split; [reflexivity|]. apply forallb_forall. exact Hf.
  - intros c Hc. apply plate_char_not_lower. unfold plate_char.
    pose proof (Hf c Hc) as H. unfold upper_alnum in H. rewrite H. reflexivity.
Qed.

(** The candidate the final [if] sees: a template match, or the whole text
    stripped to A-Z and 0-9, of 4 to 10 characters. *)
Lemma plateCandidate_cases text :
  truthy (plateCandidate text) = true ->
  In (plateCandidate text) (allMatches (lines_of text)) \/
  (allMatches (lines_of text) = [] \/ fst (bestPlate (lines_of text)) = []) /\
  forallb upper_alnum (plateCandidate text) = true /\
  (4 <= List.length (plateCandidate text) <= 10)%nat.
Proof.
  unfold plateCandidate. set (lines := lines_of text).
  intros Ht. unfold wholeTextPlate in *.
  destruct (truthy (fst (bestPlate lines))) eqn:Eb; cbn [negb] in *.
  - left. destruct (bestPlate_chosen lines) as [[Hb _]|(pre & post & Hls & _)].
    + rewrite Hb in Eb. discriminate.
    + rewrite Hls. apply in_elt.
  - right.
    assert (Hnil : fst (bestPlate lines) = []).
    { destruct (fst (bestPlate lines)); [reflexivity|discriminate]. }
    destruct (wholeText_shape lines) as [_ Hf]. cbv zeta in Hf.
    set (allText := toUpperCase _) in *.
    destruct ((4 <=? length allText)%nat && (length allText <=? 10)%nat) eqn:El;
      [|rewrite Eb in Ht; discriminate].
    destruct (gt (calculatePlateScore allText) n0_5);
      [|rewrite Eb in Ht; discriminate].
    apply andb_prop in El. destruct El as [E1 E2].
    apply Nat.leb_le in E1, E2. unfold length in *. auto.
Qed.

End PlateResultFacts.

(** X11.  A plate, whenever one is returned, is made of the characters
    A-Z, 0-9 and the hyphen, holds at least three letters or digits, at most
    one hyphen and at most ten characters in all; upper-casing it, as the
    vehicle form does on submission, leaves it as it is. *)
Theorem plate_number_shape text p :
  plateNumber (plateDataOfText text) = Some p ->
  forallb plate_char p = true /\
  (3 <= count upper_alnum p)%nat /\
  (List.length p <= 10)%nat /\
  (count (only hyphen) p <= 1)%nat /\
  toUpperCase p = p.
Proof.
  unfold plateDataOfText.
  destruct (truthy (plateCandidate text)) eqn:Ht; [|discriminate].
  cbn [plateNumber]. rewrite formatPlate_spec. intros [= <-].
  fold (normalizePlate (plateCandidate text)).
  set (cand := plateCandidate text) in *.
  destruct (normalizePlate_counts cand) as (Hc & Hl & Hh & Hin).
  assert (Hshape : (forall c, In c cand -> plate_kept c = true) /\
                   (3 <= count upper_alnum cand)%nat /\
                   (List.length cand <= 10)%nat /\
                   (count (only hyphen) cand <= 1)%nat).
  { pose proof (plateCandidate_cases text Ht) as Hcases. fold cand in Hcases.
    destruct Hcases as [Hm|(_ & Hf & Hlen)].
    - destruct (match_shape _ _ Hm) as (H1 & H2 & H3 & H4).
      repeat split; auto; lia.
    - assert (Hall : Forall (fun c => upper_alnum c = true) cand).
      { apply Forall_forall. rewrite forallb_forall in Hf. exact Hf. }
      repeat split.
      + intros c Hc'. rewrite forallb_forall in Hf. specialize (Hf c Hc').
        unfold plate_kept. unfold upper_alnum in Hf.
        destruct (upper c), (digit c); try discriminate; reflexivity.
      + rewrite (@count_all upper_alnum _ Hall). lia.
      + lia.
      + rewrite (@count_none (only hyphen) upper_alnum _ upper_alnum_not_hyphen Hall).
        lia. }
  destruct Hshape as (Hk & H3 & H10 & H1).
  assert (Hchars : forall c, In c (normalizePlate cand) -> plate_char c = true).
  { intros c Hc'. destruct (Hin c Hc') as [Hc0 Hs].
    apply plate_kept_char; [apply Hk, Hc0|exact Hs]. }
  split; [apply forallb_forall; exact Hchars|].
  split; [lia|]. split; [lia|]. split; [lia|].
  apply toUpperCase_fixed. intros c Hc'. apply plate_char_not_lower, Hchars, Hc'.
Qed.

Lemma plate_number_shape_witness :
  forallb plate_char (js "KA-1234") = true /\
  (3 <= count upper_alnum (js "KA-1234"))%nat /\
  (List.length (js "KA-1234") <= 10)%nat /\
  (count (only hyphen) (js "KA-1234") <= 1)%nat /\
  toUpperCase (js "KA-1234") = js "KA-1234".
Proof.
  apply (@plate_number_shape (js "ka KA-1234") (js "KA-1234")). reflexivity.
Defined.

(** X12.  When some line has a match of a plate template, the plate
    returned comes from the first of the matches of greatest score, in the
    order of lines, then templates, then matches; the whole-text fallback
    is not used. *)
Theorem plate_is_first_best_match text :
  allMatches (lines_of text) <> [] ->
  exists pre m post,
    allMatches (lines_of text) = pre ++ m :: post /\
    plateDataOfText text = {| plateNumber := Some (normalizePlate m) |} /\
    (forall x, In x pre ->
               gt (calculatePlateScore m) (calculatePlateScore x) = true) /\
    (forall x, In x post ->
               gt (calculatePlateScore x) (calculatePlateScore m) = false).
Proof.
  intros Hne. set (lines := lines_of text) in *.
  destruct (bestPlate_chosen lines) as [[_ Hnone]|(pre & post & Hls & _ & _ & _ & Hpre & Hpost)].
  - exfalso. destruct (allMatches lines) as [|m ms] eqn:E; [congruence|].
    assert (Hin : In m (allMatches lines)) by (rewrite E; left; reflexivity).
    destruct (match_shape _ _ Hin) as (H3 & H8 & _).
    pose proof (count_le_length upper_alnum m) as Hle.
    pose proof (Hnone m (or_introl eq_refl) eq_refl) as Hm.
    rewrite plate_score_positive in Hm by lia. discriminate.
  - exists pre, (fst (bestPlate lines)), post.
    split; [exact Hls|]. split; [|split; auto].
    assert (Hin : In (fst (bestPlate lines)) (allMatches lines))
      by (rewrite Hls; apply in_elt).
    destruct (match_shape _ _ Hin) as (H3 & _).
    assert (Ht : truthy (fst (bestPlate lines)) = true).
    { revert H3. destruct (fst (bestPlate lines)); [|reflexivity].
      intros H3. unfold count in H3. simpl in H3. lia. }
    unfold plateDataOfText, plateCandidate. fold lines. unfold wholeTextPlate.
    rewrite Ht. cbn [negb]. rewrite Ht, formatPlate_spec. reflexivity.
Qed.

Lemma plate_is_first_best_match_witness :
  exists pre m post,
    allMatches (lines_of (js "ABC 1234")) = pre ++ m :: post /\
    plateDataOfText (js "ABC 1234") = {| plateNumber := Some (normalizePlate m) |}.
Proof.
  destruct (@plate_is_first_best_match (js "ABC 1234")) as (pre & m & post & H1 & H2 & _).
  - vm_compute. discriminate.
  - exists pre, m, post. split; [exact H1|exact H2].
Defined.

(** X13.  Plate cleaning discards lower-case letters instead of
    upper-casing them: the cleaned line is the trimmed text of the kept
    characters, and a line gives the same template matches with its
    lower-case letters removed. *)
Theorem plate_cleaning_drops_lowercase line :
  cleanPlateLine line = trim (filter plate_kept line) /\
  cleanPlateLine (filter (neg lower) line) = cleanPlateLine line /\
  matchesOfLine (filter (neg lower) line) = matchesOfLine line.
Proof.
  assert (E : cleanPlateLine (filter (neg lower) line) = cleanPlateLine line).
  { rewrite !cleanPlateLine_trim. f_equal.
    induction line as [|c line IH]; [reflexivity|]. cbn [filter].
    unfold neg at 1. destruct (lower c) eqn:El; cbn [negb filter].
    - rewrite (lower_not_plate_kept c El). exact IH.
    - rewrite IH. reflexivity. }
  split; [apply cleanPlateLine_trim|]. split; [exact E|].
  unfold matchesOfLine. rewrite E. reflexivity.
Qed.

Section FormFacts.

Lemma idData_address_city text :
  address (idDataOfText text) = None /\ city (idDataOfText text) = None.
Proof.
  unfold idDataOfText.
  destruct (fallback_address_city (meaningfulLines (lines_of text))
              (scored (meaningfulLines (lines_of text)))) as [-> ->].
  apply scored_address_city.
Qed.

Lemma fillVisitorForm_idData text f :
  fillVisitorForm (idDataOfText text) f
  = fillFrom (idNumber (idDataOfText text)) setIdNumber
      (fillFrom (name (idDataOfText text)) setName f).
Proof.
  unfold fillVisitorForm. destruct (idData_address_city text) as [-> ->].
  reflexivity.
Qed.

Lemma fillFrom_name_others field f :
  let f' := fillFrom field setName f in
  v_idNumber f' = v_idNumber f /\ v_city f' = v_city f /\
  v_address f' = v_address f /\ v_company f' = v_company f /\
  v_phone f' = v_phone f /\ v_status f' = v_status f.
Proof.
  unfold fillFrom. destruct field as [v|]; [destruct (truthy v)|]; repeat split.
Qed.

Lemma fillFrom_idNumber_others field f :
  let f' := fillFrom field setIdNumber f in
  v_name f' = v_name f /\ v_city f' = v_city f /\
  v_address f' = v_address f /\ v_company f' = v_company f /\
  v_phone f' = v_phone f /\ v_status f' = v_status f.
Proof.
  unfold fillFrom. destruct field as [v|]; [destruct (truthy v)|]; repeat split.
Qed.

Lemma plate_present text p :
  plateNumber (plateDataOfText text) = Some p -> truthy p = true.
Proof.
  unfold plateDataOfText.
  destruct (truthy (plateCandidate text)) eqn:Ht; [|discriminate].
  cbn [plateNumber]. rewrite formatPlate_spec. intros [= <-].
  fold (normalizePlate (plateCandidate text)).
  destruct (normalizePlate_counts (plateCandidate text)) as (Hc & _).
  assert (H3 : (3 <= count upper_alnum (plateCandidate text))%nat).
  { destruct (plateCandidate_cases text Ht) as [Hm|(_ & Hf & Hlen)].
    - apply (match_shape _ _ Hm).
    - rewrite (count_forallb _ _ Hf). lia. }
  rewrite <- Hc in H3. revert H3.
  destruct (normalizePlate (plateCandidate text)); [|reflexivity].
  unfold count. simpl. lia.
Qed.

End FormFacts.

(** X14.  Whatever the OCR engine does, the visitor form's capture handler
    ends with the processing flag off and the camera hidden, shows the
    "Text Extracted" toast and never the failure toast, and changes no field
    of the form but the name and the ID number, each only to a value that was
    extracted. *)
Theorem visitor_capture_outcome recognize imageData s :
  let s' := visitorHandleImageCapture recognize imageData s in
  v_isProcessingOCR s' = false /\
  v_showCamera s' = false /\
  v_capturedImage s' = Some imageData /\
  v_toasts s' = v_toasts s ++ [toastProcessingID; toastTextExtracted] /\
  v_city (v_form s') = v_city (v_form s) /\
  v_address (v_form s') = v_address (v_form s) /\
  v_company (v_form s') = v_company (v_form s) /\
  v_phone (v_form s') = v_phone (v_form s) /\
  v_status (v_form s') = v_status (v_form s) /\
  v_form s' =
    match recognize imageData with
    | Fulfilled text =>
        fillFrom (idNumber (idDataOfText text)) setIdNumber
          (fillFrom (name (idDataOfText text)) setName (v_form s))
    | Threw => v_form s
    end.
Proof.
  cbv zeta. unfold visitorHandleImageCapture, extractIDCardText, try_catch, bind.
  destruct (recognize imageData) as [text|]; cbn.
  - rewrite fillVisitorForm_idData.
    destruct (fillFrom_name_others (name (idDataOfText text)) (v_form s))
      as (_ & H1 & H2 & H3 & H4 & H5).
    destruct (fillFrom_idNumber_others (idNumber (idDataOfText text))
                (fillFrom (name (idDataOfText text)) setName (v_form s)))
      as (_ & G1 & G2 & G3 & G4 & G5).
    cbv zeta in *. rewrite G1, G2, G3, G4, G5, H1, H2, H3, H4, H5.
    rewrite <- app_assoc. repeat split.
  - rewrite <- app_assoc. repeat split.
Qed.

(** X15.  Whatever the OCR engine does, the vehicle form's capture handler
    ends with the processing flag off, never shows the failure toast, and
    either writes the extracted plate into the form and announces it, or,
    when no plate was extracted or the engine failed, leaves the form as it
    was and asks for manual entry. *)
Theorem vehicle_capture_outcome recognize imageData s :
  let s' := vehicleHandleImageCapture recognize imageData s in
  let found :=
    match recognize imageData with
    | Fulfilled text => plateNumber (plateDataOfText text)
    | Threw => None
    end in
  c_isProcessingOCR s' = false /\
  c_showCamera s' = false /\
  c_capturedImage s' = Some imageData /\
  match found with
  | Some plate =>
      c_form s' = setPlateNumber plate (c_form s) /\
      c_toasts s' = c_toasts s ++ [toastProcessingPlate; toastPlateExtracted plate]
  | None =>
      c_form s' = c_form s /\
      c_toasts s' = c_toasts s ++ [toastProcessingPlate; toastNoPlate]
  end.
Proof.
  cbv zeta. unfold vehicleHandleImageCapture, extractLicensePlate, try_catch, bind.
  destruct (recognize imageData) as [text|].
  - cbv beta iota.
    destruct (plateNumber (plateDataOfText text)) as [plate|] eqn:E.
    + cbn [present]. rewrite (plate_present text E).
      cbn. rewrite <- app_assoc. repeat split.
    + cbn. rewrite <- app_assoc. repeat split.
  - cbn. rewrite <- app_assoc. repeat split.
Qed.

